(** * Payment ingestion and fiscal receipt issuance

    A shallow embedding of the account classifier, the product title
    resolver, the PrivatBank ingestion route and the Checkbox receipt
    creation route, together with the PostgreSQL schema they run against. *)

From Stdlib Require Import ZArith List String Ascii Bool Lia QArith Qround Lqa.
From Stdlib Require Import Numbers.DecimalString.
From Stdlib Require Numbers.DecimalZ.
Import ListNotations.

Open Scope string_scope.
Open Scope Z_scope.

(** ** JavaScript values

    A JavaScript string is the sequence of its code units, one [ascii] each;
    account identifiers and the patterns they are matched against are
    ASCII. *)

(** A value of TypeScript type [T | null | undefined]. *)
Inductive Nullable (A : Type) : Type :=
| JNull
| JUndefined
| JValue (a : A).

Arguments JNull {A}.
Arguments JUndefined {A}.
Arguments JValue {A} a.

(** The outcome of a call that may throw: [Throw m] carries [error.message]. *)
Inductive Thrown (A : Type) : Type :=
| Throw (message : string)
| Return (a : A).

Arguments Throw {A} message.
Arguments Return {A} a.

(** [!s] on a string: only the empty string is falsy. *)
Definition str_falsy (s : string) : bool :=
  match s with
  | EmptyString => true
  | String _ _ => false
  end.

(** [!v] on a nullable database column. *)
Definition col_falsy (v : option string) : bool :=
  match v with
  | None => true
  | Some s => str_falsy s
  end.

(** [v || null]. *)
Definition or_null (v : option string) : option string :=
  if col_falsy v then None else v.

(** [s || d]. *)
Definition or_default (s d : string) : string :=
  if str_falsy s then d else s.

(** [s.substring(indexStart, indexEnd)]: the arguments are swapped when out
    of order and clamped to the length of [s]. *)
Definition js_substring (s : string) (indexStart indexEnd : nat) : string :=
  let lo := Nat.min indexStart indexEnd in
  let hi := Nat.max indexStart indexEnd in
  substring lo (hi - lo) s.

(** [arr.includes(x)] on an array of strings. *)
Definition includes (arr : list string) (x : string) : bool :=
  existsb (String.eqb x) arr.

(** [n.toString()] for an integral number. *)
Definition toString (n : Z) : string :=
  NilZero.string_of_int (Z.to_int n).

(** ** lib/account-utils *)

(** The version that knows the courier account. *)
Module AccountUtils.

Definition NON_TARGET_PATTERNS : list string :=
  ["2600"; "2902"; "2909"; "2920"].

Definition NOVA_POSHTA_ACCOUNT : string := "UA813005280000026548000000014".

Definition isTargetAccount (senderAccount : Nullable string) : bool :=
  match senderAccount with
  | JNull | JUndefined => false
  | JValue account =>
      if str_falsy account || (String.length account <? 19)%nat then false
      else if String.eqb account NOVA_POSHTA_ACCOUNT then false
      else
        let patternSection := js_substring account 15 19 in
        let isNonTarget := includes NON_TARGET_PATTERNS patternSection in
        negb isNonTarget
  end.

End AccountUtils.

(** The version without the courier account (window 15-18). *)
Module AccountUtilsPlain.

Definition NON_TARGET_PATTERNS : list string :=
  ["2600"; "2902"; "2909"; "2920"].

Definition isTargetAccount (senderAccount : Nullable string) : bool :=
  match senderAccount with
  | JNull | JUndefined => false
  | JValue account =>
      if str_falsy account || (String.length account <? 19)%nat then false
      else
        let patternSection := js_substring account 15 19 in
        let isNonTarget := includes NON_TARGET_PATTERNS patternSection in
        negb isNonTarget
  end.

End AccountUtilsPlain.

(** The oldest version, whose window sits at positions 14-17. *)
Module AccountUtilsLegacy.

Definition NON_TARGET_PATTERNS : list string :=
  ["2600"; "2902"; "2909"; "2920"].

Definition isTargetAccount (senderAccount : Nullable string) : bool :=
  match senderAccount with
  | JNull | JUndefined => false
  | JValue account =>
      if str_falsy account || (String.length account <? 18)%nat then false
      else
        let patternSection := js_substring account 14 18 in
        let isNonTarget := includes NON_TARGET_PATTERNS patternSection in
        negb isNonTarget
  end.

End AccountUtilsLegacy.

(** The four characters at positions 15, 16, 17 and 18 of [account] spell
    one of the non-target codes. *)
Definition window_is_code (account : string) : Prop :=
  exists code,
    In code ["2600"; "2902"; "2909"; "2920"]
    /\ String.get 15 account = String.get 0 code
    /\ String.get 16 account = String.get 1 code
    /\ String.get 17 account = String.get 2 code
    /\ String.get 18 account = String.get 3 code.

(** ** lib/product-title *)

Record CompanyInfo : Type := {
  ci_id : Z;
  ci_name : string;
  ci_tax_id : option string
}.

Record PaymentInfo : Type := {
  pi_id : Z;
  pi_description : option string;
  pi_amount : Q;
  pi_sender_name : option string
}.

Module ProductTitle.

Definition getUniversalProductTitle (payment : PaymentInfo) : string :=
  "Перехідник HDMI-RCA".

Definition getProductTitle (company : CompanyInfo) (payment : PaymentInfo)
  : string :=
  match ci_tax_id company with
  | Some tax =>
      if String.eqb tax "2593712430" then "Перехідник HDMI-VGA"
      else if String.eqb tax "123456789" then "Косметичні товари"
      else getUniversalProductTitle payment
  | None => getUniversalProductTitle payment
  end.

Definition getProductCode (company : CompanyInfo) (payment : PaymentInfo)
  : string :=
  toString (pi_id payment).

End ProductTitle.

(** ** lib/checkbox-client *)

(** Modelled from the spec: [uahToKopiyky] is imported from the checkbox
    client, which is not part of the sources at hand.  The amount is
    multiplied by 100 and rounded to the nearest integer, halves going up as
    [Math.round] does.  Amounts are exact rationals here; the binary
    floating point of [parseFloat] is not represented. *)
Definition uahToKopiyky (amount : Q) : Z :=
  Qfloor (amount * inject_Z 100 + (1 # 2))%Q.

(** Modelled from the spec: the inverse the spec asks for, dividing the
    minor units by 100. *)
Definition minorToAmount (kopiyky : Z) : Q :=
  (inject_Z kopiyky / inject_Z 100)%Q.

Record Good : Type := {
  good_code : string;
  good_name : string;
  good_price : Z;
  good_quantity : Z
}.

Record PaymentLeg : Type := {
  leg_type : string;
  leg_value : Z
}.

Record CheckboxCreateReceiptRequest : Type := {
  goods : list Good;
  legs : list PaymentLeg;
  cashier_name : string;
  header : string;
  footer : string
}.

(** What the fiscal service answers when a receipt is created. *)
Record CheckboxReceipt : Type := {
  cb_id : string;
  cb_fiscal_code : option string;
  cb_receipt_url : option string;
  cb_pdf_url : option string;
  cb_status : string;
  cb_created_at : string
}.

(** ** scripts/init-db: the schema *)

Module Company.
Record t : Type := {
  id : Z;
  name : string;
  tax_id : string;
  pb_merchant_id : option string;
  pb_api_token_encrypted : option string;
  checkbox_license_key_encrypted : option string;
  checkbox_cashier_login : option string;
  checkbox_cashier_pin_encrypted : option string
}.
End Company.

Module Payment.
Record t : Type := {
  id : Z;
  company_id : Z;
  external_id : option string;
  amount : Q;
  currency : option string;
  description : option string;
  sender_account : option string;
  sender_name : option string;
  sender_tax_id : option string;
  document_number : option string;
  payment_date : string;
  receipt_issued : bool;
  receipt_id : option Z;
  is_target : bool
}.

Definition set_receipt_issued (p : t) (b : bool) : t :=
  {| id := id p; company_id := company_id p; external_id := external_id p;
     amount := amount p; currency := currency p;
     description := description p; sender_account := sender_account p;
     sender_name := sender_name p; sender_tax_id := sender_tax_id p;
     document_number := document_number p; payment_date := payment_date p;
     receipt_issued := b; receipt_id := receipt_id p;
     is_target := is_target p |}.
End Payment.

Module Receipt.
Record t : Type := {
  id : Z;
  company_id : Z;
  payment_id : option Z;
  checkbox_receipt_id : option string;
  fiscal_code : option string;
  amount : Q;
  receipt_url : option string;
  pdf_url : option string;
  status : string;
  issued_at : string
}.
End Receipt.

(** The three tables and the two SERIAL sequences behind [payments.id] and
    [receipts.id]. *)
Record Database : Type := {
  companies : list Company.t;
  payments : list Payment.t;
  receipts : list Receipt.t;
  payments_id_seq : Z;
  receipts_id_seq : Z
}.

Definition opt_eqb (a : option string) (b : string) : bool :=
  match a with
  | Some x => String.eqb x b
  | None => false
  end.

Definition optZ_eqb (a : option Z) (b : Z) : bool :=
  match a with
  | Some x => Z.eqb x b
  | None => false
  end.

Definition find_company (db : Database) (companyId : Z) : option Company.t :=
  find (fun c => Company.id c =? companyId) (companies db).

Definition find_payment (db : Database) (paymentId : Z) : option Payment.t :=
  find (fun p => Payment.id p =? paymentId) (payments db).

(** [SELECT id FROM payments WHERE external_id = e AND company_id = c]. *)
Definition select_existing (db : Database) (e : string) (companyId : Z)
  : list Payment.t :=
  filter (fun p => opt_eqb (Payment.external_id p) e
                   && (Payment.company_id p =? companyId))
         (payments db).

(** The rows that the column constraint [external_id ... UNIQUE] compares a
    new row against: every tenant's. *)
Definition holders (db : Database) (e : string) : list Payment.t :=
  filter (fun p => opt_eqb (Payment.external_id p) e) (payments db).

(** The double quote that PostgreSQL puts around the names in its
    messages. *)
Definition dquote : string := String (ascii_of_nat 34) EmptyString.

(** The messages PostgreSQL raises. *)
Definition unique_violation : string :=
  "duplicate key value violates unique constraint "
  ++ dquote ++ "payments_external_id_key" ++ dquote.

Definition foreign_key_violation : string :=
  "insert or update on table " ++ dquote ++ "payments" ++ dquote
  ++ " violates foreign key constraint "
  ++ dquote ++ "payments_company_id_fkey" ++ dquote.

(** The values an INTEGER column, or a parameter compared with one, can
    hold. *)
Definition int4 (n : Z) : Prop := -2147483648 <= n <= 2147483647.

(** A row of [INSERT INTO payments], before the sequence numbers it. *)
Record NewPayment : Type := {
  np_company_id : Z;
  np_external_id : string;
  np_amount : Q;
  np_sender_name : option string;
  np_sender_account : option string;
  np_sender_tax_id : option string;
  np_description : option string;
  np_payment_date : string;
  np_currency : option string;
  np_document_number : option string;
  np_receipt_issued : bool;
  np_is_target : bool
}.

Definition number_payment (i : Z) (r : NewPayment) : Payment.t :=
  {| Payment.id := i;
     Payment.company_id := np_company_id r;
     Payment.external_id := Some (np_external_id r);
     Payment.amount := np_amount r;
     Payment.currency := np_currency r;
     Payment.description := np_description r;
     Payment.sender_account := np_sender_account r;
     Payment.sender_name := np_sender_name r;
     Payment.sender_tax_id := np_sender_tax_id r;
     Payment.document_number := np_document_number r;
     Payment.payment_date := np_payment_date r;
     Payment.receipt_issued := np_receipt_issued r;
     Payment.receipt_id := None;
     Payment.is_target := np_is_target r |}.

Definition with_payments (db : Database) (ps : list Payment.t) (seq : Z)
  : Database :=
  {| companies := companies db; payments := ps; receipts := receipts db;
     payments_id_seq := seq; receipts_id_seq := receipts_id_seq db |}.







(** [INSERT INTO payments]: the sequence is advanced first, and stays
    advanced when a constraint then rejects the row.  Of the checks of the
    table, the foreign key to [companies] and the UNIQUE constraint on
    [external_id] are followed here; the row is taken to fit its columns
    ([fits_columns]), so that no value is rounded, cut or refused for its
    type. *)
Definition insert_payment (db : Database) (r : NewPayment)
  : Database * Thrown Z :=
  let i := payments_id_seq db in
  let burnt := with_payments db (payments db) (i + 1) in
  match find_company db (np_company_id r) with
  | None => (burnt, Throw foreign_key_violation)
  | Some _ =>
      match holders db (np_external_id r) with
      | _ :: _ => (burnt, Throw unique_violation)
      | [] =>
          (with_payments db (payments db ++ [number_payment i r]) (i + 1),
           Return i)
      end
  end.

(** A row of [INSERT INTO receipts]. *)
Record NewReceipt : Type := {
  nr_company_id : Z;
  nr_payment_id : Z;
  nr_checkbox_receipt_id : string;
  nr_fiscal_code : option string;
  nr_amount : Q;
  nr_receipt_url : option string;
  nr_pdf_url : option string;
  nr_status : string;
  nr_issued_at : string
}.

Definition number_receipt (i : Z) (r : NewReceipt) : Receipt.t :=
  {| Receipt.id := i;
     Receipt.company_id := nr_company_id r;
     Receipt.payment_id := Some (nr_payment_id r);
     Receipt.checkbox_receipt_id := Some (nr_checkbox_receipt_id r);
     Receipt.fiscal_code := nr_fiscal_code r;
     Receipt.amount := nr_amount r;
     Receipt.receipt_url := nr_receipt_url r;
     Receipt.pdf_url := nr_pdf_url r;
     Receipt.status := nr_status r;
     Receipt.issued_at := nr_issued_at r |}.

(** [INSERT INTO receipts ... RETURNING id].  The table has a primary key
    and two foreign keys; [idx_receipts_payment_id] is a plain index, so no
    row is ever rejected for its [payment_id]. *)
Definition insert_receipt (db : Database) (r : NewReceipt) : Database * Z :=
  let i := receipts_id_seq db in
  ({| companies := companies db; payments := payments db;
      receipts := receipts db ++ [number_receipt i r];
      payments_id_seq := payments_id_seq db; receipts_id_seq := i + 1 |}, i).

(** [UPDATE payments SET receipt_issued = true WHERE id = paymentId]. *)
Definition update_receipt_issued (db : Database) (paymentId : Z) : Database :=
  with_payments db
    (map (fun p => if Payment.id p =? paymentId
                   then Payment.set_receipt_issued p true else p)
         (payments db))
    (payments_id_seq db).

(** ** The two routes *)

(** What [parsePrivatBankTransaction] hands to the ingestion loop. *)
Record ParsedPayment : Type := {
  pp_external_id : string;
  pp_amount : Q;
  pp_sender_name : option string;
  pp_sender_account : Nullable string;
  pp_sender_tax_id : option string;
  pp_description : option string;
  pp_payment_date : string;
  pp_currency : option string;
  pp_document_number : option string
}.

(** A [null] or [undefined] query parameter is stored as SQL NULL. *)
Definition to_column {A : Type} (v : Nullable A) : option A :=
  match v with
  | JValue a => Some a
  | JNull | JUndefined => None
  end.

(** The counters of the ingestion loop, next to the database it writes. *)
Record LoopState : Type := {
  ls_db : Database;
  newPayments : nat;
  duplicates : nat;
  errors : list string
}.

Inductive FetchResponse : Type :=
| FetchValidationError
| FetchCompanyNotFound
| FetchCredentialsMissing
| FetchBankFailed (message : string)
| FetchFailed (message : string)
| FetchSummary (total_fetched new_payments dups : nat)
               (failures : list string).

Inductive CreateResponse : Type :=
| ValidationError
| PaymentNotFound
| AlreadyIssued
| CredentialsMissing
| FiscalSubmissionFailed (message : string)
| CreateFailed (message : string)
| ReceiptCreated (receiptId : Z) (receipt : CheckboxReceipt).

(** HTTP status of each answer of the receipt route. *)
Definition create_status (r : CreateResponse) : Z :=
  match r with
  | ValidationError => 400
  | PaymentNotFound => 404
  | AlreadyIssued => 400
  | CredentialsMissing => 400
  | FiscalSubmissionFailed _ => 502
  | CreateFailed _ => 500
  | ReceiptCreated _ _ => 200
  end.

(** One run of the receipt route: every database state one of its statements
    committed, in order, the request it sent to the fiscal service if it
    got that far, and its answer. *)
Record CreateRun : Type := {
  committed : list Database;
  sent : option CheckboxCreateReceiptRequest;
  response : CreateResponse
}.

(** The database once the run is over. *)
Definition final_db (db : Database) (run : CreateRun) : Database :=
  last (committed run) db.

Definition template_value (v : option string) : string :=
  match v with
  | Some s => s
  | None => "null"
  end.

Section Routes.

(** The imports whose modules are not at hand: [decrypt] from
    lib/encryption, the transaction type and its parser from
    lib/privatbank-client. *)
Variable decrypt : string -> Thrown string.
Variable RawTx : Type.
Variable NUM_DOC : RawTx -> string.
Variable parsePrivatBankTransaction : RawTx -> Thrown ParsedPayment.

(** *** POST /api/integrations/privatbank/fetch *)

Definition new_payment_row (companyId : Z) (payment : ParsedPayment)
  : NewPayment :=
  {| np_company_id := companyId;
     np_external_id := pp_external_id payment;
     np_amount := pp_amount payment;
     np_sender_name := pp_sender_name payment;
     np_sender_account := to_column (pp_sender_account payment);
     np_sender_tax_id := pp_sender_tax_id payment;
     np_description := pp_description payment;
     np_payment_date := pp_payment_date payment;
     np_currency := pp_currency payment;
     np_document_number := pp_document_number payment;
     np_receipt_issued := false;
     np_is_target :=
       AccountUtils.isTargetAccount (pp_sender_account payment) |}.

Definition failure_line (tx : RawTx) (message : string) : string :=
  "Failed to process payment " ++ NUM_DOC tx ++ ": " ++ message.

Definition record_failure (st : LoopState) (db : Database) (tx : RawTx)
                          (message : string) : LoopState :=
  {| ls_db := db; newPayments := newPayments st;
     duplicates := duplicates st;
     errors := errors st ++ [failure_line tx message] |}.

(** The body of [for (const tx of transactions)]. *)
Definition process_tx (companyId : Z) (st : LoopState) (tx : RawTx)
  : LoopState :=
  match parsePrivatBankTransaction tx with
  | Throw message => record_failure st (ls_db st) tx message
  | Return payment =>
      match select_existing (ls_db st) (pp_external_id payment) companyId with
      | _ :: _ =>
          {| ls_db := ls_db st; newPayments := newPayments st;
             duplicates := S (duplicates st); errors := errors st |}
      | [] =>
          match insert_payment (ls_db st)
                               (new_payment_row companyId payment) with
          | (db', Throw message) => record_failure st db' tx message
          | (db', Return _) =>
              {| ls_db := db'; newPayments := S (newPayments st);
                 duplicates := duplicates st; errors := errors st |}
          end
      end
  end.

Definition start_loop (db : Database) : LoopState :=
  {| ls_db := db; newPayments := 0; duplicates := 0; errors := [] |}.

Definition process_all (companyId : Z) (db : Database)
                       (transactions : list RawTx) : LoopState :=
  fold_left (process_tx companyId) transactions (start_loop db).

(** The route.  [fetchPrivatBankPayments] is the bank's answer for this
    call, given the merchant id, the decrypted token and the two optional
    date strings of the request (which are taken to be valid dates). *)
Definition fetch_route
    (fetchPrivatBankPayments :
       string -> string -> option string -> option string ->
       Thrown (list RawTx))
    (db : Database) (companyId : Z) (startDate endDate : option string)
  : Database * FetchResponse :=
  if negb (0 <? companyId) then (db, FetchValidationError)
  else
    match find_company db companyId with
    | None => (db, FetchCompanyNotFound)
    | Some company =>
        match Company.pb_merchant_id company,
              Company.pb_api_token_encrypted company with
        | Some merchantId, Some encrypted =>
            if str_falsy merchantId || str_falsy encrypted
            then (db, FetchCredentialsMissing)
            else
              match decrypt encrypted with
              | Throw message => (db, FetchFailed message)
              | Return apiToken =>
                  match fetchPrivatBankPayments merchantId apiToken
                                                startDate endDate with
                  | Throw message =>
                      (db, FetchBankFailed
                             (or_default message "API request failed"))
                  | Return transactions =>
                      let st := process_all companyId db transactions in
                      (ls_db st,
                       FetchSummary (List.length transactions)
                                    (newPayments st) (duplicates st)
                                    (errors st))
                  end
              end
        | _, _ => (db, FetchCredentialsMissing)
        end
    end.

(** *** POST /api/receipts/create *)

(** [SELECT ... FROM payments p INNER JOIN companies c ON ...]. *)
Definition select_payment (db : Database) (paymentId : Z)
  : option (Payment.t * Company.t) :=
  match find_payment db paymentId with
  | None => None
  | Some p =>
      match find_company db (Payment.company_id p) with
      | None => None
      | Some c => Some (p, c)
      end
  end.

Definition receipt_data (payment : Payment.t) (company : Company.t)
  : CheckboxCreateReceiptRequest :=
  let amountInKopiyky := uahToKopiyky (Payment.amount payment) in
  let companyInfo :=
    {| ci_id := Payment.company_id payment;
       ci_name := Company.name company;
       ci_tax_id := None |} in
  let paymentInfo :=
    {| pi_id := Payment.id payment;
       pi_description := Payment.description payment;
       pi_amount := Payment.amount payment;
       pi_sender_name := Payment.sender_name payment |} in
  {| goods :=
       [ {| good_code := ProductTitle.getProductCode companyInfo paymentInfo;
            good_name := ProductTitle.getProductTitle companyInfo paymentInfo;
            good_price := amountInKopiyky;
            good_quantity := 1000 |} ];
     legs := [ {| leg_type := "CASHLESS"; leg_value := amountInKopiyky |} ];
     cashier_name := Company.name company;
     header := "Платіж від: " ++ template_value (Payment.sender_name payment);
     footer := "Дякуємо за співпрацю!" |}.

Definition receipt_row (payment : Payment.t) (paymentId : Z)
                       (checkboxReceipt : CheckboxReceipt) : NewReceipt :=
  {| nr_company_id := Payment.company_id payment;
     nr_payment_id := paymentId;
     nr_checkbox_receipt_id := cb_id checkboxReceipt;
     nr_fiscal_code := or_null (cb_fiscal_code checkboxReceipt);
     nr_amount := Payment.amount payment;
     nr_receipt_url := or_null (cb_receipt_url checkboxReceipt);
     nr_pdf_url := or_null (cb_pdf_url checkboxReceipt);
     nr_status := cb_status checkboxReceipt;
     nr_issued_at := cb_created_at checkboxReceipt |}.

Definition stopped (r : CreateResponse) : CreateRun :=
  {| committed := []; sent := None; response := r |}.

(** The route.  [checkboxIssueReceipt] is the fiscal service's answer for
    this call, given cashier login, PIN, license key and the request.
    Each of the three statements is taken to run: the answer 500 stands
    here for a failed [decrypt] only, while the handler's catch also gives
    it when a statement throws, as the SELECT does on an id that is no
    [int4]. *)
Definition create_route
    (checkboxIssueReceipt :
       string -> string -> string -> CheckboxCreateReceiptRequest ->
       Thrown CheckboxReceipt)
    (db : Database) (paymentId : Z) : CreateRun :=
  if negb (0 <? paymentId) then stopped ValidationError
  else
    match select_payment db paymentId with
    | None => stopped PaymentNotFound
    | Some (payment, company) =>
        if Payment.receipt_issued payment then stopped AlreadyIssued
        else
          match Company.checkbox_license_key_encrypted company,
                Company.checkbox_cashier_login company,
                Company.checkbox_cashier_pin_encrypted company with
          | Some encryptedKey, Some cashierLogin, Some encryptedPin =>
              if str_falsy encryptedKey || str_falsy cashierLogin
                 || str_falsy encryptedPin
              then stopped CredentialsMissing
              else
                match decrypt encryptedKey with
                | Throw message => stopped (CreateFailed message)
                | Return licenseKey =>
                    match decrypt encryptedPin with
                    | Throw message => stopped (CreateFailed message)
                    | Return cashierPin =>
                        let receiptData := receipt_data payment company in
                        match checkboxIssueReceipt cashierLogin cashierPin
                                                   licenseKey receiptData with
                        | Throw message =>
                            {| committed := [];
                               sent := Some receiptData;
                               response :=
                                 FiscalSubmissionFailed
                                   (or_default message "API request failed") |}
                        | Return checkboxReceipt =>
                            let (db1, receiptId) :=
                              insert_receipt db
                                (receipt_row payment paymentId
                                             checkboxReceipt) in
                            let db2 := update_receipt_issued db1 paymentId in
                            {| committed := [db1; db2];
                               sent := Some receiptData;
                               response :=
                                 ReceiptCreated receiptId checkboxReceipt |}
                        end
                    end
                end
          | _, _, _ => stopped CredentialsMissing
          end
    end.

End Routes.

Arguments failure_line {RawTx} NUM_DOC tx message.
Arguments record_failure {RawTx} NUM_DOC st db tx message.
Arguments process_tx {RawTx} NUM_DOC parsePrivatBankTransaction companyId st tx.
Arguments process_all {RawTx} NUM_DOC parsePrivatBankTransaction companyId db
  transactions.
Arguments fetch_route decrypt {RawTx} NUM_DOC parsePrivatBankTransaction
  fetchPrivatBankPayments db companyId startDate endDate.

(** ** Properties of database states *)

(** Whether a listed transaction parses to a payment with external id
    [e]. *)
Definition carries {RawTx : Type}
                   (parsePrivatBankTransaction : RawTx -> Thrown ParsedPayment)
                   (e : string) (tx : RawTx) : bool :=
  match parsePrivatBankTransaction tx with
  | Return payment => String.eqb (pp_external_id payment) e
  | Throw _ => false
  end.

(** The loop state after one more transaction was found to be stored
    already. *)
Definition bump_duplicate (st : LoopState) : LoopState :=
  {| ls_db := ls_db st; newPayments := newPayments st;
     duplicates := S (duplicates st); errors := errors st |}.

(** What [external_id ... UNIQUE] maintains. *)
Definition external_ids_unique (db : Database) : Prop :=
  forall e, (List.length (holders db e) <= 1)%nat.

(** The receipts that reference a payment. *)
Definition receipts_of (db : Database) (paymentId : Z) : list Receipt.t :=
  filter (fun r => optZ_eqb (Receipt.payment_id r) paymentId) (receipts db).

Definition one_receipt_per_payment (db : Database) : Prop :=
  forall paymentId, (List.length (receipts_of db paymentId) <= 1)%nat.

(** Every receipt references a payment that is flagged as issued. *)
Definition receipts_flagged (db : Database) : Prop :=
  forall r paymentId,
    In r (receipts db) -> Receipt.payment_id r = Some paymentId ->
    exists p, find_payment db paymentId = Some p
              /\ Payment.receipt_issued p = true.

(** What the primary key of [payments], its sequence and the order of the
    writes of the receipt route keep true between complete calls. *)
Definition consistent (db : Database) : Prop :=
  (forall p, In p (payments db) -> Payment.id p < payments_id_seq db)
  /\ NoDup (map Payment.id (payments db))
  /\ (forall r, In r (receipts db) ->
        exists p, In p (payments db)
                  /\ Receipt.payment_id r = Some (Payment.id p)
                  /\ Payment.receipt_issued p = true)
  /\ one_receipt_per_payment db.

(** What the sequence of [payments.id] and the foreign key to [companies]
    keep true: ids start at 1 and every payment has its company. *)
Definition addressable (db : Database) : Prop :=
  1 <= payments_id_seq db
  /\ forall p, In p (payments db) ->
               0 < Payment.id p
               /\ find_company db (Payment.company_id p) <> None.

(** A freshly initialised database: some companies, no payments, no
    receipts, both sequences at their first value. *)
Definition fresh (cs : list Company.t) : Database :=
  {| companies := cs; payments := []; receipts := [];
     payments_id_seq := 1; receipts_id_seq := 1 |}.

(** *** scripts/init-db: the sample data *)

Definition sample_company (i : Z) (n tax merchant license : string)
  : Company.t :=
  {| Company.id := i; Company.name := n; Company.tax_id := tax;
     Company.pb_merchant_id := Some merchant;
     Company.pb_api_token_encrypted := None;
     Company.checkbox_license_key_encrypted := Some license;
     Company.checkbox_cashier_login := None;
     Company.checkbox_cashier_pin_encrypted := None |}.

Definition sample_payment (i c : Z) (e : string) (a : Q)
                          (descr account sender date : string)
                          (issued : bool) : Payment.t :=
  {| Payment.id := i; Payment.company_id := c;
     Payment.external_id := Some e; Payment.amount := a;
     Payment.currency := Some "UAH"; Payment.description := Some descr;
     Payment.sender_account := Some account;
     Payment.sender_name := Some sender;
     Payment.sender_tax_id := None; Payment.document_number := None;
     Payment.payment_date := date; Payment.receipt_issued := issued;
     Payment.receipt_id := None; Payment.is_target := true |}.

(** What [initDatabase] leaves when it starts on an empty database.  The
    sequences number the two companies 1 and 2 and the five payments 1 to
    5; [is_target] takes its DEFAULT; the payment dates are NOW() less an
    interval, [d1] to [d5] here.  The INSERT INTO receipts names a column,
    [fiscal_number], that the table does not have: it is refused before
    anything is written, and the script ends there, each earlier statement
    having committed on its own.  Payment 2 is flagged and has no
    receipt. *)
Definition initDatabase (d1 d2 d3 d4 d5 : string) : Database :=
  {| companies :=
       [ sample_company 1
           ("ТОВ " ++ dquote ++ "Тестова Компанія 1" ++ dquote)
           "12345678" "PB_MERCHANT_1" "CHECKBOX_LICENSE_1";
         sample_company 2
           ("ПП " ++ dquote ++ "Тестова Компанія 2" ++ dquote)
           "87654321" "PB_MERCHANT_2" "CHECKBOX_LICENSE_2" ];
     payments :=
       [ sample_payment 1 1 "PB_TXN_001" (150000 # 100) "Оплата за товар"
                        "UA123456789" "ФОП Іванов" d1 false;
         sample_payment 2 1 "PB_TXN_002" (280050 # 100) "Оплата за послуги"
                        "UA987654321" "ТОВ Партнер" d2 true;
         sample_payment 3 1 "PB_TXN_003" (75000 # 100) "Аванс"
                        "UA555666777" "Клієнт А" d3 false;
         sample_payment 4 2 "PB_TXN_004" (320000 # 100)
                        "Оплата накладної №123"
                        "UA111222333" "ТОВ Клієнт" d4 false;
         sample_payment 5 2 "PB_TXN_005" (110000 # 100) "Передплата"
                        "UA444555666" "ФОП Петренко" d5 false ];
     receipts := [];
     payments_id_seq := 6;
     receipts_id_seq := 1 |}.

Section Reachability.

Variable decrypt : string -> Thrown string.
Variable RawTx : Type.
Variable NUM_DOC : RawTx -> string.
Variable parsePrivatBankTransaction : RawTx -> Thrown ParsedPayment.

(** The states in which the two routes leave the database when every
    call runs to its end. *)
Inductive reachable : Database -> Prop :=
| reach_fresh cs : reachable (fresh cs)
| reach_fetch bank db companyId startDate endDate :
    reachable db ->
    reachable (fst (fetch_route decrypt NUM_DOC parsePrivatBankTransaction
                                bank db companyId startDate endDate))
| reach_create checkbox db paymentId :
    reachable db ->
    reachable (final_db db (create_route decrypt checkbox db paymentId)).

(** The states the database holds after any single statement: each
    [await sql] of the receipt route commits on its own, so the state
    between its INSERT and its UPDATE is one of them. *)
Inductive durable : Database -> Prop :=
| durable_fresh cs : durable (fresh cs)
| durable_fetch bank db companyId startDate endDate :
    durable db ->
    durable (fst (fetch_route decrypt NUM_DOC parsePrivatBankTransaction
                              bank db companyId startDate endDate))
| durable_create checkbox db paymentId db' :
    durable db ->
    In db' (committed (create_route decrypt checkbox db paymentId)) ->
    durable db'.

End Reachability.

Arguments reachable decrypt {RawTx} NUM_DOC parsePrivatBankTransaction _.
Arguments durable decrypt {RawTx} NUM_DOC parsePrivatBankTransaction _.

(** ** A small installation to run the routes on *)

Module Sample.

(** Secrets are stored in the clear and always decrypt. *)
Definition decrypt (s : string) : Thrown string := Return s.

(** The bank hands out transactions that are parsed already. *)
Definition NUM_DOC (tx : ParsedPayment) : string :=
  template_value (pp_document_number tx).

Definition parse (tx : ParsedPayment) : Thrown ParsedPayment := Return tx.

Definition company (i : Z) (n tax : string) : Company.t :=
  {| Company.id := i; Company.name := n; Company.tax_id := tax;
     Company.pb_merchant_id := Some "merchant";
     Company.pb_api_token_encrypted := Some "token";
     Company.checkbox_license_key_encrypted := Some "license";
     Company.checkbox_cashier_login := Some "cashier";
     Company.checkbox_cashier_pin_encrypted := Some "1234" |}.

Definition two_companies : Database :=
  fresh [company 1 "A" "11111111"; company 2 "B" "22222222"].

Definition tx (e : string) : ParsedPayment :=
  {| pp_external_id := e;
     pp_amount := 150000 # 100;
     pp_sender_name := Some "Payer";
     pp_sender_account := JValue "UA783220010000012345678901234";
     pp_sender_tax_id := None;
     pp_description := Some "Invoice 7";
     pp_payment_date := "2025-01-15T10:00:00";
     pp_currency := Some "UAH";
     pp_document_number := Some "7" |}.

(** A bank that answers every listing with the same transactions. *)
Definition bank (txs : list ParsedPayment)
  : string -> string -> option string -> option string ->
    Thrown (list ParsedPayment) :=
  fun _ _ _ _ => Return txs.

Definition fetch (db : Database) (companyId : Z) (txs : list ParsedPayment)
  : Database * FetchResponse :=
  fetch_route decrypt NUM_DOC parse (bank txs) db companyId None None.

Definition receipt : CheckboxReceipt :=
  {| cb_id := "chk-1"; cb_fiscal_code := Some "F1";
     cb_receipt_url := None; cb_pdf_url := None;
     cb_status := "DONE"; cb_created_at := "2025-01-15T10:05:00" |}.

(** A fiscal service that accepts, and one that is down. *)
Definition accepting
  : string -> string -> string -> CheckboxCreateReceiptRequest ->
    Thrown CheckboxReceipt :=
  fun _ _ _ _ => Return receipt.

Definition refusing
  : string -> string -> string -> CheckboxCreateReceiptRequest ->
    Thrown CheckboxReceipt :=
  fun _ _ _ _ => Throw "503 Service Unavailable".

(** Company 1 has ingested one transaction. *)
Definition one_payment : Database :=
  fst (fetch two_companies 1 [tx "TX-1"]).

(** The receipt route has run its INSERT for payment 1 and not yet its
    UPDATE. *)
Definition after_insert : Database :=
  hd one_payment (committed (create_route decrypt accepting one_payment 1)).

(** The same once more, started from that state. *)
Definition after_second_insert : Database :=
  hd after_insert (committed (create_route decrypt accepting after_insert 1)).

(** Payment 1 issued by one complete call. *)
Definition issued : Database :=
  final_db one_payment (create_route decrypt accepting one_payment 1).

End Sample.

(** * Further code *)

(** ** lib/account-utils: the parts shown in the payment list *)

(** [s.substring(indexStart)]. *)
Definition js_substring_from (s : string) (indexStart : nat) : string :=
  js_substring s indexStart (String.length s).

Module AccountParts.

Record t : Type := {
  prefix : string;
  pattern : string;
  suffix : string;
  isMatched : bool
}.

Definition NON_TARGET_PATTERNS : list string :=
  ["2600"; "2902"; "2909"; "2920"].

Definition getAccountPatternParts (senderAccount : Nullable string)
  : option t :=
  match senderAccount with
  | JNull | JUndefined => None
  | JValue account =>
      if str_falsy account || (String.length account <? 19)%nat then None
      else
        let prefix := js_substring account 0 15 in
        let pattern := js_substring account 15 19 in
        let suffix := js_substring_from account 19 in
        let isMatched := includes NON_TARGET_PATTERNS pattern in
        Some {| prefix := prefix; pattern := pattern; suffix := suffix;
                isMatched := isMatched |}
  end.

End AccountParts.

(** ** scripts/update-is-target-patterns *)

(** [SUBSTRING(s FROM start FOR count)]: positions are counted from 1, and
    the part of the window that lies before position 1 is lost. *)
Definition sql_substring (s : string) (start count : nat) : string :=
  let first := Nat.max start 1 in
  substring (first - 1) (start + count - first) s.

(** The CASE expression that the script assigns to [is_target]. *)
Definition sql_is_target (sender_account : option string) : bool :=
  match sender_account with
  | None => false
  | Some account =>
      if (String.length account <? 19)%nat then false
      else if includes ["2600"; "2902"; "2909"; "2920"]
                       (sql_substring account 16 4)
      then false
      else true
  end.

Definition with_is_target (p : Payment.t) (b : bool) : Payment.t :=
  {| Payment.id := Payment.id p;
     Payment.company_id := Payment.company_id p;
     Payment.external_id := Payment.external_id p;
     Payment.amount := Payment.amount p;
     Payment.currency := Payment.currency p;
     Payment.description := Payment.description p;
     Payment.sender_account := Payment.sender_account p;
     Payment.sender_name := Payment.sender_name p;
     Payment.sender_tax_id := Payment.sender_tax_id p;
     Payment.document_number := Payment.document_number p;
     Payment.payment_date := Payment.payment_date p;
     Payment.receipt_issued := Payment.receipt_issued p;
     Payment.receipt_id := Payment.receipt_id p;
     Payment.is_target := b |}.

(** [UPDATE payments SET is_target = CASE ... END], on every row. *)
Definition updateIsTargetPatterns (db : Database) : Database :=
  with_payments db
    (map (fun p => with_is_target p (sql_is_target (Payment.sender_account p)))
         (payments db))
    (payments_id_seq db).

(** A stored account read back as the classifier's argument. *)
Definition of_column (v : option string) : Nullable string :=
  match v with
  | Some a => JValue a
  | None => JNull
  end.

(** The database with the [is_target] column rewritten row by row. *)
Definition retarget (f : Payment.t -> bool) (db : Database) : Database :=
  with_payments db (map (fun p => with_is_target p (f p)) (payments db))
                (payments_id_seq db).

(** ** api/companies *)

(** A company as the routes answer it and as the client holds it. *)
Record CompanyView : Type := {
  v_id : Z;
  v_name : string;
  v_tax_id : string;
  v_pb_merchant_id : option string;
  v_pb_api_token : option string;
  v_checkbox_license_key : option string;
  v_checkbox_cashier_pin : option string
}.

(** The validated body of POST /api/companies; [None] is an absent field. *)
Record CreateCompanyBody : Type := {
  b_name : string;
  b_tax_id : string;
  b_pb_merchant_id : option string;
  b_pb_api_token : option string;
  b_checkbox_license_key : option string;
  b_checkbox_cashier_pin : option string
}.

(** The validated body of PUT /api/companies/[id]: a field is absent
    ([JUndefined], [None] for the two names), [null] or a string. *)
Record UpdateCompanyBody : Type := {
  u_name : option string;
  u_tax_id : option string;
  u_pb_merchant_id : Nullable string;
  u_pb_api_token : Nullable string;
  u_checkbox_license_key : Nullable string;
  u_checkbox_cashier_pin : Nullable string
}.

Inductive CompanyResponse : Type :=
| CompanyValidationError
| NoFieldsToUpdate
| HasPayments (paymentCount : nat)
| CompanyNotFound
| CompanyFailed
| CompanyCreated (company : CompanyView)
| CompanyFetched (company : CompanyView)
| CompanyUpdated (company : CompanyView)
| CompanyDeleted (id : Z) (name : string).

(** HTTP status of each answer of the company routes. *)
Definition company_status (r : CompanyResponse) : Z :=
  match r with
  | CompanyValidationError => 400
  | NoFieldsToUpdate => 400
  | HasPayments _ => 400
  | CompanyNotFound => 404
  | CompanyFailed => 500
  | CompanyCreated _ => 201
  | CompanyFetched _ => 200
  | CompanyUpdated _ => 200
  | CompanyDeleted _ _ => 200
  end.

Definition with_companies (db : Database) (cs : list Company.t) : Database :=
  {| companies := cs; payments := payments db; receipts := receipts db;
     payments_id_seq := payments_id_seq db;
     receipts_id_seq := receipts_id_seq db |}.

(** [INSERT INTO companies]: [nextval] is the id the sequence hands out;
    the primary key and [tax_id ... UNIQUE] may reject the row. *)
Definition insert_company (db : Database) (nextval : Z) (r : Company.t)
  : option Database :=
  if existsb (fun c => Company.id c =? nextval) (companies db) then None
  else if existsb (fun c => String.eqb (Company.tax_id c) (Company.tax_id r))
                  (companies db)
  then None
  else Some (with_companies db (companies db ++ [r])).

(** [x ? encrypt(x) : null] on an optional field and on a nullable one. *)
Definition encrypt_field (encrypt : string -> Thrown string)
                         (v : option string) : Thrown (option string) :=
  match v with
  | None => Return None
  | Some x =>
      if str_falsy x then Return None
      else match encrypt x with
           | Throw m => Throw m
           | Return e => Return (Some e)
           end
  end.

(** The assignments PUT collects, in the order it collects them: the
    column and the value bound to its placeholder. *)
Inductive Assignment : Type :=
| SetName (v : string)
| SetTaxId (v : string)
| SetMerchantId (v : option string)
| SetApiToken (v : option string)
| SetLicenseKey (v : option string)
| SetCashierPin (v : option string).

Definition assign (c : Company.t) (a : Assignment) : Company.t :=
  {| Company.id := Company.id c;
     Company.name := match a with SetName v => v | _ => Company.name c end;
     Company.tax_id :=
       match a with SetTaxId v => v | _ => Company.tax_id c end;
     Company.pb_merchant_id :=
       match a with SetMerchantId v => v | _ => Company.pb_merchant_id c end;
     Company.pb_api_token_encrypted :=
       match a with
       | SetApiToken v => v
       | _ => Company.pb_api_token_encrypted c
       end;
     Company.checkbox_license_key_encrypted :=
       match a with
       | SetLicenseKey v => v
       | _ => Company.checkbox_license_key_encrypted c
       end;
     Company.checkbox_cashier_login := Company.checkbox_cashier_login c;
     Company.checkbox_cashier_pin_encrypted :=
       match a with
       | SetCashierPin v => v
       | _ => Company.checkbox_cashier_pin_encrypted c
       end |}.

Definition assign_all (updates : list Assignment) (c : Company.t)
  : Company.t :=
  fold_left assign updates c.

(** [UPDATE companies SET ... WHERE id = ... RETURNING ...]: the rows
    written, or nothing when [tax_id ... UNIQUE] rejects one of them
    because a row of another id carries the same tax id. *)
Definition update_company (db : Database) (id : Z)
                          (updates : list Assignment)
  : option (Database * list Company.t) :=
  let written :=
    map (fun c => if Company.id c =? id then assign_all updates c else c)
        (companies db) in
  let clash :=
    existsb (fun c =>
               (Company.id c =? id)
               && existsb (fun d =>
                             negb (Company.id d =? id)
                             && String.eqb (Company.tax_id d)
                                           (Company.tax_id c))
                          written)
            written in
  if clash then None
  else Some (with_companies db written,
             filter (fun c => Company.id c =? id) written).

(** [DELETE FROM companies WHERE id = ... RETURNING id, name], with the
    ON DELETE CASCADE of [payments.company_id] and [receipts.company_id]
    and the ON DELETE SET NULL of [receipts.payment_id]. *)
Definition delete_company (db : Database) (id : Z)
  : Database * list Company.t :=
  let gone := filter (fun p => Payment.company_id p =? id) (payments db) in
  let detach (r : Receipt.t) : Receipt.t :=
    {| Receipt.id := Receipt.id r;
       Receipt.company_id := Receipt.company_id r;
       Receipt.payment_id :=
         match Receipt.payment_id r with
         | Some i =>
             if existsb (fun p => Payment.id p =? i) gone then None
             else Some i
         | None => None
         end;
       Receipt.checkbox_receipt_id := Receipt.checkbox_receipt_id r;
       Receipt.fiscal_code := Receipt.fiscal_code r;
       Receipt.amount := Receipt.amount r;
       Receipt.receipt_url := Receipt.receipt_url r;
       Receipt.pdf_url := Receipt.pdf_url r;
       Receipt.status := Receipt.status r;
       Receipt.issued_at := Receipt.issued_at r |} in
  ({| companies := filter (fun c => negb (Company.id c =? id)) (companies db);
      payments :=
        filter (fun p => negb (Payment.company_id p =? id)) (payments db);
      receipts :=
        map detach
            (filter (fun r => negb (Receipt.company_id r =? id))
                    (receipts db));
      payments_id_seq := payments_id_seq db;
      receipts_id_seq := receipts_id_seq db |},
   filter (fun c => Company.id c =? id) (companies db)).

Section CompanyRoutes.

(** [encrypt] and [decrypt] come from lib/encryption. *)
Variable encrypt : string -> Thrown string.
Variable decrypt : string -> Thrown string.

(** The helper both GET routes define. *)
Definition safeDecrypt (encrypted : option string) : option string :=
  match encrypted with
  | None => None
  | Some e =>
      if str_falsy e then None
      else match decrypt e with
           | Throw _ => None
           | Return v => Some v
           end
  end.

(** *** POST /api/companies *)

Definition post_company (db : Database) (nextval : Z)
                        (body : CreateCompanyBody)
  : Database * CompanyResponse :=
  if str_falsy (b_name body) || str_falsy (b_tax_id body)
  then (db, CompanyValidationError)
  else
    match encrypt_field encrypt (b_pb_api_token body) with
    | Throw _ => (db, CompanyFailed)
    | Return pbTokenEncrypted =>
        match encrypt_field encrypt (b_checkbox_license_key body) with
        | Throw _ => (db, CompanyFailed)
        | Return checkboxLicenseEncrypted =>
            match encrypt_field encrypt (b_checkbox_cashier_pin body) with
            | Throw _ => (db, CompanyFailed)
            | Return checkboxPinEncrypted =>
                let row :=
                  {| Company.id := nextval;
                     Company.name := b_name body;
                     Company.tax_id := b_tax_id body;
                     Company.pb_merchant_id :=
                       or_null (b_pb_merchant_id body);
                     Company.pb_api_token_encrypted := pbTokenEncrypted;
                     Company.checkbox_license_key_encrypted :=
                       checkboxLicenseEncrypted;
                     Company.checkbox_cashier_login := None;
                     Company.checkbox_cashier_pin_encrypted :=
                       checkboxPinEncrypted |} in
                match insert_company db nextval row with
                | None => (db, CompanyFailed)
                | Some db' =>
                    (db',
                     CompanyCreated
                       {| v_id := nextval;
                          v_name := b_name body;
                          v_tax_id := b_tax_id body;
                          v_pb_merchant_id := or_null (b_pb_merchant_id body);
                          v_pb_api_token := or_null (b_pb_api_token body);
                          v_checkbox_license_key :=
                            or_null (b_checkbox_license_key body);
                          v_checkbox_cashier_pin :=
                            or_null (b_checkbox_cashier_pin body) |})
                end
            end
        end
    end.

(** *** GET /api/companies/[id] *)

Definition view_company (company : Company.t) : CompanyView :=
  {| v_id := Company.id company;
     v_name := Company.name company;
     v_tax_id := Company.tax_id company;
     v_pb_merchant_id := Company.pb_merchant_id company;
     v_pb_api_token := safeDecrypt (Company.pb_api_token_encrypted company);
     v_checkbox_license_key :=
       safeDecrypt (Company.checkbox_license_key_encrypted company);
     v_checkbox_cashier_pin :=
       safeDecrypt (Company.checkbox_cashier_pin_encrypted company) |}.

Definition get_company (db : Database) (id : Z) : CompanyResponse :=
  match filter (fun c => Company.id c =? id) (companies db) with
  | [] => CompanyNotFound
  | company :: _ => CompanyFetched (view_company company)
  end.

(** *** PUT /api/companies/[id] *)

(** One [if (field !== undefined)] block on a secret: the value bound is
    the ciphertext, or NULL for [null] and for the empty string. *)
Definition secret_update (mk : option string -> Assignment)
                         (v : Nullable string)
  : Thrown (list Assignment) :=
  match v with
  | JUndefined => Return []
  | JNull => Return [mk None]
  | JValue x =>
      match encrypt_field encrypt (Some x) with
      | Throw m => Throw m
      | Return e => Return [mk e]
      end
  end.

Definition collect_updates (body : UpdateCompanyBody)
  : Thrown (list Assignment) :=
  let names :=
    (match u_name body with Some v => [SetName v] | None => [] end
     ++ match u_tax_id body with Some v => [SetTaxId v] | None => [] end
     ++ match u_pb_merchant_id body with
        | JUndefined => []
        | JNull => [SetMerchantId None]
        | JValue v => [SetMerchantId (Some v)]
        end)%list in
  match secret_update SetApiToken (u_pb_api_token body) with
  | Throw m => Throw m
  | Return token =>
      match secret_update SetLicenseKey (u_checkbox_license_key body) with
      | Throw m => Throw m
      | Return license =>
          match secret_update SetCashierPin (u_checkbox_cashier_pin body) with
          | Throw m => Throw m
          | Return pin => Return (names ++ token ++ license ++ pin)%list
          end
      end
  end.

(** A field of [z.string().min(1).optional()] that was sent empty. *)
Definition present_but_empty (v : option string) : bool :=
  match v with
  | Some x => str_falsy x
  | None => false
  end.

Definition put_company (db : Database) (id : Z) (body : UpdateCompanyBody)
  : Database * CompanyResponse :=
  if present_but_empty (u_name body) || present_but_empty (u_tax_id body)
  then (db, CompanyValidationError)
  else
    match collect_updates body with
    | Throw _ => (db, CompanyFailed)
    | Return [] => (db, NoFieldsToUpdate)
    | Return updates =>
        match update_company db id updates with
        | None => (db, CompanyFailed)
        | Some (_, []) => (db, CompanyNotFound)
        | Some (db', company :: _) =>
            (db',
             CompanyUpdated
               {| v_id := Company.id company;
                  v_name := Company.name company;
                  v_tax_id := Company.tax_id company;
                  v_pb_merchant_id := Company.pb_merchant_id company;
                  v_pb_api_token :=
                    or_null (to_column (u_pb_api_token body));
                  v_checkbox_license_key :=
                    or_null (to_column (u_checkbox_license_key body));
                  v_checkbox_cashier_pin :=
                    or_null (to_column (u_checkbox_cashier_pin body)) |})
        end
    end.

(** *** DELETE /api/companies/[id] *)

(** Both statements are taken to run; the handler's catch answers 500,
    with nothing written, when one throws, as the count does on an id that
    is no [int4]. *)
Definition delete_company_route (db : Database) (id : Z)
  : Database * CompanyResponse :=
  let paymentCount :=
    List.length (filter (fun p => Payment.company_id p =? id) (payments db)) in
  if (0 <? paymentCount)%nat then (db, HasPayments paymentCount)
  else
    match delete_company db id with
    | (_, []) => (db, CompanyNotFound)
    | (db', company :: _) =>
        (db', CompanyDeleted (Company.id company) (Company.name company))
    end.

End CompanyRoutes.

(** ** contexts/CompanyContext: the company selected after loading *)

(** [parseInt] is taken as given: [None] stands for NaN. *)
Definition companyToSelect (parseInt : string -> option Z)
                           (companies : list CompanyView)
                           (savedCompanyId : option string)
  : option CompanyView :=
  let byId (saved : string) :=
    find (fun c => match parseInt saved with
                   | Some i => v_id c =? i
                   | None => false
                   end) companies in
  let found :=
    match savedCompanyId with
    | Some saved => if str_falsy saved then hd_error companies else byId saved
    | None => hd_error companies
    end in
  match found with
  | Some c => Some c
  | None => hd_error companies
  end.

(** The selection state after [loadCompanies] got a list. *)
Definition select_after_load (parseInt : string -> option Z)
                             (selectedCompany : option CompanyView)
                             (companies : list CompanyView)
                             (savedCompanyId : option string)
  : option CompanyView :=
  match companies, selectedCompany with
  | _ :: _, None => companyToSelect parseInt companies savedCompanyId
  | _, _ => selectedCompany
  end.

(** ** Histories *)

Section Histories.

Variable encrypt : string -> Thrown string.
Variable decrypt : string -> Thrown string.
Variable RawTx : Type.
Variable NUM_DOC : RawTx -> string.
Variable parsePrivatBankTransaction : RawTx -> Thrown ParsedPayment.

(** [evolves db db']: ingestions and receipt calls, each run to its end,
    lead from [db] to [db']. *)
Inductive evolves : Database -> Database -> Prop :=
| evolves_refl db : evolves db db
| evolves_fetch bank db db' companyId startDate endDate :
    evolves db db' ->
    evolves db (fst (fetch_route decrypt NUM_DOC parsePrivatBankTransaction
                                 bank db' companyId startDate endDate))
| evolves_create checkbox db db' paymentId :
    evolves db db' ->
    evolves db (final_db db' (create_route decrypt checkbox db' paymentId)).

(** The databases that the routes and the migration produce from an empty
    one: companies come from POST /api/companies only. *)
Inductive managed : Database -> Prop :=
| managed_fresh : managed (fresh [])
| managed_post db nextval body :
    managed db -> managed (fst (post_company encrypt db nextval body))
| managed_put db id body :
    managed db -> managed (fst (put_company encrypt db id body))
| managed_delete db id :
    managed db -> managed (fst (delete_company_route db id))
| managed_fetch bank db companyId startDate endDate :
    managed db ->
    managed (fst (fetch_route decrypt NUM_DOC parsePrivatBankTransaction
                              bank db companyId startDate endDate))
| managed_create checkbox db paymentId :
    managed db ->
    managed (final_db db (create_route decrypt checkbox db paymentId))
| managed_migrate db :
    managed db -> managed (updateIsTargetPatterns db).

End Histories.

Arguments evolves decrypt {RawTx} NUM_DOC parsePrivatBankTransaction _ _.
Arguments managed encrypt decrypt {RawTx} NUM_DOC parsePrivatBankTransaction _.

(** A payment, its [receipt_issued] and [is_target] columns set aside. *)
Definition payment_core (p : Payment.t) : Payment.t :=
  with_is_target (Payment.set_receipt_issued p false) false.

(** What a later state keeps of an earlier payment: everything but the two
    columns, and the flag once it is set. *)
Definition kept (p p' : Payment.t) : Prop :=
  payment_core p' = payment_core p
  /\ Payment.is_target p' = Payment.is_target p
  /\ (Payment.receipt_issued p = true -> Payment.receipt_issued p' = true).

(** A row as the ingestion of tenant [c] writes it when the sequence is
    between [lo] and [hi]. *)
Definition own_row (c lo hi : Z) (p : Payment.t) : Prop :=
  Payment.company_id p = c
  /\ Payment.receipt_issued p = false
  /\ Payment.receipt_id p = None
  /\ lo <= Payment.id p < hi
  /\ Payment.is_target p
     = AccountUtils.isTargetAccount (of_column (Payment.sender_account p)).

(** What holds of a database whose companies all came from POST. *)
Definition tidy (db : Database) : Prop :=
  (forall c, In c (companies db) -> Company.checkbox_cashier_login c = None)
  /\ receipts db = []
  /\ (forall p, In p (payments db) -> Payment.receipt_issued p = false)
  /\ NoDup (map Company.id (companies db))
  /\ NoDup (map Company.tax_id (companies db)).

(** ** More of the small installation *)

Module SampleVault.

(** A cipher that tags the plaintext; [decrypt] refuses what lacks the
    tag. *)
Definition encrypt (s : string) : Thrown string := Return ("enc:" ++ s).

Definition decrypt (s : string) : Thrown string :=
  if String.prefix "enc:" s
  then Return (substring 4 (String.length s - 4) s)
  else Throw "bad decrypt".

Definition body : CreateCompanyBody :=
  {| b_name := "A"; b_tax_id := "11111111";
     b_pb_merchant_id := Some "merchant";
     b_pb_api_token := Some "token";
     b_checkbox_license_key := Some "license";
     b_checkbox_cashier_pin := Some "1234" |}.

(** One company, created through the route. *)
Definition one_company : Database :=
  fst (post_company encrypt (fresh []) 1 body).

(** The company has ingested one transaction. *)
Definition with_payment : Database :=
  fst (fetch_route decrypt Sample.NUM_DOC Sample.parse
                   (Sample.bank [Sample.tx "TX-1"]) one_company 1 None None).

Definition only_name : UpdateCompanyBody :=
  {| u_name := Some "B"; u_tax_id := None;
     u_pb_merchant_id := JUndefined; u_pb_api_token := JNull;
     u_checkbox_license_key := JUndefined;
     u_checkbox_cashier_pin := JUndefined |}.

End SampleVault.

Module SampleStrict.

(** A parser that refuses a transaction without a currency. *)
Definition parse (tx : ParsedPayment) : Thrown ParsedPayment :=
  match pp_currency tx with
  | Some _ => Return tx
  | None => Throw "Invalid transaction: no currency"
  end.

Definition malformed : ParsedPayment :=
  {| pp_external_id := "TX-9";
     pp_amount := 150000 # 100;
     pp_sender_name := Some "Payer";
     pp_sender_account := JValue "UA783220010000012345678901234";
     pp_sender_tax_id := None;
     pp_description := Some "Invoice 9";
     pp_payment_date := "2025-01-15T10:00:00";
     pp_currency := None;
     pp_document_number := Some "9" |}.

Definition fetch (db : Database) (companyId : Z) (txs : list ParsedPayment)
  : Database * FetchResponse :=
  fetch_route Sample.decrypt Sample.NUM_DOC parse (Sample.bank txs)
              db companyId None None.

End SampleStrict.

(** * Properties *)

Open Scope list_scope.

(** ** Account classification *)

Lemma length_guard_passes (account : string) :
  (19 <= String.length account)%nat ->
  str_falsy account || (String.length account <? 19)%nat = false.
Proof.
  intros Hlen. apply orb_false_iff. split.
  - destruct account; [simpl in Hlen; lia | reflexivity].
  - apply Nat.ltb_ge. exact Hlen.
Qed.

Lemma length_guard_stops (account : string) :
  (String.length account < 19)%nat ->
  str_falsy account || (String.length account <? 19)%nat = true.
Proof.
  intros Hlen. apply orb_true_iff. right. apply Nat.ltb_lt. exact Hlen.
Qed.

(** The window of an account of at least 19 characters, character by
    character. *)
Lemma window_chars (account : string) :
  (19 <= String.length account)%nat ->
  exists a b c d,
    String.get 15 account = Some a /\ String.get 16 account = Some b
    /\ String.get 17 account = Some c /\ String.get 18 account = Some d
    /\ js_substring account 15 19
       = String a (String b (String c (String d EmptyString))).
Proof.
  intros Hlen.
  do 19 (destruct account as [|? account]; [simpl in Hlen; lia|]).
  do 4 eexists. repeat split; try reflexivity.
  destruct account; reflexivity.
Qed.

Lemma includes_window (account : string) :
  (19 <= String.length account)%nat ->
  includes ["2600"; "2902"; "2909"; "2920"] (js_substring account 15 19) = true
  <-> window_is_code account.
Proof.
  intros Hlen.
  destruct (window_chars account Hlen)
    as (a & b & c & d & Ha & Hb & Hc & Hd & Hsub).
  unfold includes, window_is_code. rewrite Hsub, Ha, Hb, Hc, Hd.
  rewrite existsb_exists. split.
  - intros (code & Hin & Heq). apply String.eqb_eq in Heq. subst code.
    exists (String a (String b (String c (String d EmptyString)))).
    repeat split; auto.
  - intros (code & Hin & H0 & H1 & H2 & H3).
    exists code. split; [exact Hin|]. apply String.eqb_eq.
    simpl in Hin.
    destruct Hin as [<- | [<- | [<- | [<- | []]]]]; simpl in *; congruence.
Qed.

Lemma plain_is_window (account : string) :
  (19 <= String.length account)%nat ->
  AccountUtilsPlain.isTargetAccount (JValue account)
  = negb (includes ["2600"; "2902"; "2909"; "2920"]
                   (js_substring account 15 19)).
Proof.
  intros Hlen. unfold AccountUtilsPlain.isTargetAccount.
  rewrite (length_guard_passes account Hlen). reflexivity.
Qed.

Lemma current_is_window (account : string) :
  (19 <= String.length account)%nat ->
  account <> AccountUtils.NOVA_POSHTA_ACCOUNT ->
  AccountUtils.isTargetAccount (JValue account)
  = negb (includes ["2600"; "2902"; "2909"; "2920"]
                   (js_substring account 15 19)).
Proof.
  intros Hlen Hne. unfold AccountUtils.isTargetAccount.
  rewrite (length_guard_passes account Hlen).
  apply String.eqb_neq in Hne. rewrite Hne. reflexivity.
Qed.

(** C6: an account of at least 19 characters other than the excluded one is
    classified as non-target exactly when its characters 15 to 18 spell one
    of 2600, 2902, 2909, 2920, and as target otherwise; this holds for the
    classifier with the exclusion and for the one without it. *)
Theorem isTarget_follows_window (account : string) :
  (19 <= String.length account)%nat ->
  account <> AccountUtils.NOVA_POSHTA_ACCOUNT ->
  (AccountUtils.isTargetAccount (JValue account) = false
   <-> window_is_code account)
  /\ (AccountUtils.isTargetAccount (JValue account) = true
      <-> ~ window_is_code account)
  /\ (AccountUtilsPlain.isTargetAccount (JValue account) = false
      <-> window_is_code account)
  /\ (AccountUtilsPlain.isTargetAccount (JValue account) = true
      <-> ~ window_is_code account).
Proof.
  intros Hlen Hne.
  rewrite (current_is_window account Hlen Hne), (plain_is_window account Hlen).
  pose proof (includes_window account Hlen) as Hw.
  destruct (includes _ _); simpl; intuition congruence.
Qed.

Lemma isTarget_follows_window_witness :
  (AccountUtils.isTargetAccount (JValue "UA843052990000026001031613189") = false
   <-> window_is_code "UA843052990000026001031613189")
  /\ AccountUtils.isTargetAccount (JValue "UA783220010000012345678901234")
     = true.
Proof.
  split.
  - apply (isTarget_follows_window "UA843052990000026001031613189").
    + simpl. lia.
    + discriminate.
  - reflexivity.
Defined.

(** C7: the excluded courier account is classified as non-target, whatever
    its window holds. *)
Theorem excluded_account_is_not_target :
  AccountUtils.isTargetAccount (JValue AccountUtils.NOVA_POSHTA_ACCOUNT)
  = false.
Proof. reflexivity. Qed.

(** The window of the courier account is 2654, none of the four codes: the
    classifier without the exclusion takes that account for a target. *)
Remark plain_classifier_targets_courier_account :
  js_substring AccountUtils.NOVA_POSHTA_ACCOUNT 15 19 = "2654"
  /\ AccountUtilsPlain.isTargetAccount
       (JValue AccountUtils.NOVA_POSHTA_ACCOUNT) = true.
Proof. split; reflexivity. Qed.

(** C8: a null, absent, empty or shorter-than-19 account is classified as
    non-target, by the classifier with the exclusion and by the one without
    it. *)
Theorem unclear_account_is_not_target (senderAccount : Nullable string) :
  match senderAccount with
  | JNull | JUndefined => True
  | JValue account => account = "" \/ (String.length account < 19)%nat
  end ->
  AccountUtils.isTargetAccount senderAccount = false
  /\ AccountUtilsPlain.isTargetAccount senderAccount = false.
Proof.
  destruct senderAccount as [| |account]; simpl; auto.
  intros [-> | Hlen]; [split; reflexivity|].
  rewrite (length_guard_stops account Hlen). split; reflexivity.
Qed.

Lemma unclear_account_is_not_target_witness :
  AccountUtils.isTargetAccount (JValue "UA123456789") = false
  /\ AccountUtilsPlain.isTargetAccount (JValue "UA123456789") = false.
Proof.
  apply (unclear_account_is_not_target (JValue "UA123456789")).
  right. simpl. lia.
Defined.

(** The oldest classifier looks one position to the left and lets an
    18-character account through. *)
Remark legacy_classifier_differs :
  AccountUtilsLegacy.isTargetAccount (JValue "UA7832200100000123") = true
  /\ AccountUtilsLegacy.isTargetAccount
       (JValue "UA843052990000026001031613189") = true.
Proof. split; reflexivity. Qed.

(** ** Minor units *)

Lemma half_up_of_integer (k : Z) :
  Qfloor (inject_Z k + (1 # 2))%Q = k.
Proof.
  unfold Qfloor, Qplus, inject_Z. simpl.
  symmetry. apply (Z.div_unique (k * 2 + 1) 2 k 1); lia.
Qed.

Lemma uahToKopiyky_nearest (amount : Q) :
  (amount * inject_Z 100 - (1 # 2) < inject_Z (uahToKopiyky amount)
   /\ inject_Z (uahToKopiyky amount) <= amount * inject_Z 100 + (1 # 2))%Q.
Proof.
  unfold uahToKopiyky.
  set (x := (amount * inject_Z 100 + (1 # 2))%Q).
  pose proof (Qlt_floor x) as Hlt. pose proof (Qfloor_le x) as Hle.
  rewrite inject_Z_plus in Hlt.
  change (inject_Z 1) with 1%Q in Hlt.
  unfold x in Hlt, Hle |- *.
  set (r := inject_Z (Qfloor (amount * inject_Z 100 + (1 # 2)))) in *.
  split; lra.
Qed.

(** On an amount of [k] hundredths the conversion returns [k], and
    dividing that by 100 gives the amount back. *)
Lemma uahToKopiyky_exact (amount : Q) (k : Z) :
  (amount == inject_Z k / inject_Z 100)%Q ->
  uahToKopiyky amount = k
  /\ (minorToAmount (uahToKopiyky amount) == amount)%Q.
Proof.
  intros Hk.
  assert (Hexact : uahToKopiyky amount = k).
  { unfold uahToKopiyky.
    rewrite <- (half_up_of_integer k). apply Qfloor_comp.
    rewrite Hk. field. }
  split; [exact Hexact|].
  rewrite Hexact. unfold minorToAmount. symmetry. exact Hk.
Qed.

(** ** The receipt route *)

Lemma find_payment_id (db : Database) (paymentId : Z) (p : Payment.t) :
  find_payment db paymentId = Some p -> Payment.id p = paymentId.
Proof.
  unfold find_payment. intros Hfind.
  apply find_some in Hfind. destruct Hfind as [_ Heq]. lia.
Qed.

Lemma find_payment_In (db : Database) (paymentId : Z) (p : Payment.t) :
  find_payment db paymentId = Some p -> In p (payments db).
Proof.
  unfold find_payment. intros Hfind.
  apply find_some in Hfind. tauto.
Qed.

Lemma select_payment_id (db : Database) (paymentId : Z)
                        (p : Payment.t) (c : Company.t) :
  select_payment db paymentId = Some (p, c) -> Payment.id p = paymentId.
Proof.
  unfold select_payment.
  destruct (find_payment db paymentId) as [q|] eqn:Hfind; [|discriminate].
  destruct (find_company db (Payment.company_id q)); [|discriminate].
  intros [= <- _]. exact (find_payment_id _ _ _ Hfind).
Qed.

Section ReceiptRoute.

Variable decrypt : string -> Thrown string.
Variable checkboxIssueReceipt :
  string -> string -> string -> CheckboxCreateReceiptRequest ->
  Thrown CheckboxReceipt.

(** C3: on a payment whose [receipt_issued] is true the route answers
    that the receipt is already issued; it sends nothing to the fiscal
    service, commits nothing, and the database with its receipts is as it
    was. *)
Theorem issued_payment_is_rejected
    (db : Database) (paymentId : Z) (payment : Payment.t)
    (company : Company.t) :
  0 < paymentId ->
  select_payment db paymentId = Some (payment, company) ->
  Payment.receipt_issued payment = true ->
  let run := create_route decrypt checkboxIssueReceipt db paymentId in
  response run = AlreadyIssued
  /\ create_status (response run) = 400
  /\ sent run = None
  /\ committed run = []
  /\ final_db db run = db
  /\ receipts (final_db db run) = receipts db.
Proof.
  intros Hpos Hsel Hissued. unfold create_route.
  apply Z.ltb_lt in Hpos. rewrite Hpos, Hsel, Hissued. simpl.
  repeat split; reflexivity.
Qed.

(** C4: when the payment is found, not yet issued and its company has
    decryptable credentials, a failing call to the fiscal service is
    answered with a submission failure carrying the upstream message;
    nothing is committed: the payment is read back unflagged and the
    receipts are as they were. *)
Theorem fiscal_failure_leaves_database
    (db : Database) (paymentId : Z) (payment : Payment.t)
    (company : Company.t)
    (encryptedKey cashierLogin encryptedPin licenseKey cashierPin
       message : string) :
  0 < paymentId ->
  select_payment db paymentId = Some (payment, company) ->
  Payment.receipt_issued payment = false ->
  Company.checkbox_license_key_encrypted company = Some encryptedKey ->
  Company.checkbox_cashier_login company = Some cashierLogin ->
  Company.checkbox_cashier_pin_encrypted company = Some encryptedPin ->
  encryptedKey <> "" -> cashierLogin <> "" -> encryptedPin <> "" ->
  decrypt encryptedKey = Return licenseKey ->
  decrypt encryptedPin = Return cashierPin ->
  checkboxIssueReceipt cashierLogin cashierPin licenseKey
                       (receipt_data payment company) = Throw message ->
  let run := create_route decrypt checkboxIssueReceipt db paymentId in
  response run
  = FiscalSubmissionFailed (or_default message "API request failed")
  /\ create_status (response run) = 502
  /\ committed run = []
  /\ final_db db run = db
  /\ select_payment (final_db db run) paymentId = Some (payment, company)
  /\ receipts (final_db db run) = receipts db.
Proof.
  intros Hpos Hsel Hflag Hkey Hlogin Hpin Hk Hl Hp Hdk Hdp Hapi.
  unfold create_route.
  apply Z.ltb_lt in Hpos. rewrite Hpos, Hsel, Hflag, Hkey, Hlogin, Hpin.
  simpl.
  assert (Hfalsy : forall s, s <> "" -> str_falsy s = false)
    by (intros [|? ?] Hs; [congruence | reflexivity]).
  rewrite (Hfalsy _ Hk), (Hfalsy _ Hl), (Hfalsy _ Hp). simpl.
  rewrite Hdk, Hdp, Hapi. simpl.
  repeat split; try reflexivity. exact Hsel.
Qed.

(** Whatever the answer of a run, a submission failure never comes with a
    committed write. *)
Lemma failure_commits_nothing (db : Database) (paymentId : Z)
                              (message : string) :
  response (create_route decrypt checkboxIssueReceipt db paymentId)
  = FiscalSubmissionFailed message ->
  committed (create_route decrypt checkboxIssueReceipt db paymentId) = [].
Proof.
  unfold create_route.
  destruct (negb (0 <? paymentId)); [discriminate|].
  destruct (select_payment db paymentId) as [[p c]|]; [|discriminate].
  destruct (Payment.receipt_issued p); [discriminate|].
  destruct (Company.checkbox_license_key_encrypted c) as [k|];
    [|discriminate].
  destruct (Company.checkbox_cashier_login c) as [l|]; [|discriminate].
  destruct (Company.checkbox_cashier_pin_encrypted c) as [n|];
    [|discriminate].
  destruct (str_falsy k || str_falsy l || str_falsy n); [discriminate|].
  destruct (decrypt k); [discriminate|].
  destruct (decrypt n); [discriminate|].
  destruct (checkboxIssueReceipt _ _ _ _); [reflexivity|].
  simpl. discriminate.
Qed.

(** The request built for a payment carries one line, named by the
    universal title and coded by the payment's id. *)
Lemma receipt_data_line (payment : Payment.t) (company : Company.t) :
  goods (receipt_data payment company)
  = [ {| good_code := toString (Payment.id payment);
         good_name := "Перехідник HDMI-RCA";
         good_price := uahToKopiyky (Payment.amount payment);
         good_quantity := 1000 |} ].
Proof. reflexivity. Qed.

(** C10: every request the route sends to the fiscal service has a single
    line whose name is the universal default title, whatever the payment's
    description and the company's tax id, and whose code is the payment
    id as a string; the title resolver returns that default for every
    company info without a tax id. *)
Theorem sent_receipt_uses_default_title
    (db : Database) (paymentId : Z) (request : CheckboxCreateReceiptRequest) :
  sent (create_route decrypt checkboxIssueReceipt db paymentId)
  = Some request ->
  (exists payment company good,
      select_payment db paymentId = Some (payment, company)
      /\ request = receipt_data payment company
      /\ goods request = [good]
      /\ good_name good = "Перехідник HDMI-RCA"
      /\ good_code good = toString paymentId)
  /\ (forall info payment,
         ci_tax_id info = None ->
         ProductTitle.getProductTitle info payment = "Перехідник HDMI-RCA"
         /\ ProductTitle.getProductCode info payment
            = toString (pi_id payment)).
Proof.
  intros Hsent. split.
  - unfold create_route in Hsent.
    destruct (negb (0 <? paymentId)); [discriminate|].
    destruct (select_payment db paymentId) as [[p c]|] eqn:Hsel;
      [|discriminate].
    pose proof (select_payment_id _ _ _ _ Hsel) as Hid.
    exists p, c.
    destruct (Payment.receipt_issued p); [discriminate|].
    destruct (Company.checkbox_license_key_encrypted c) as [k|];
      [|discriminate].
    destruct (Company.checkbox_cashier_login c) as [l|]; [|discriminate].
    destruct (Company.checkbox_cashier_pin_encrypted c) as [n|];
      [|discriminate].
    destruct (str_falsy k || str_falsy l || str_falsy n); [discriminate|].
    destruct (decrypt k); [discriminate|].
    destruct (decrypt n); [discriminate|].
    assert (Hreq : request = receipt_data p c).
    { destruct (checkboxIssueReceipt _ _ _ _); simpl in Hsent;
        congruence. }
    subst request. eexists. rewrite receipt_data_line.
    repeat split. simpl. rewrite Hid. reflexivity.
  - intros info payment Htax. unfold ProductTitle.getProductTitle.
    rewrite Htax. split; reflexivity.
Qed.

(** What the route sends is the request built from the payment it read. *)
Lemma sent_is_receipt_data (db : Database) (paymentId : Z)
                           (request : CheckboxCreateReceiptRequest) :
  sent (create_route decrypt checkboxIssueReceipt db paymentId)
  = Some request ->
  exists payment company,
    select_payment db paymentId = Some (payment, company)
    /\ request = receipt_data payment company.
Proof.
  unfold create_route.
  destruct (negb (0 <? paymentId)); [discriminate|].
  destruct (select_payment db paymentId) as [[p c]|]; [|discriminate].
  destruct (Payment.receipt_issued p); [discriminate|].
  destruct (Company.checkbox_license_key_encrypted c) as [k|];
    [|discriminate].
  destruct (Company.checkbox_cashier_login c) as [l|]; [|discriminate].
  destruct (Company.checkbox_cashier_pin_encrypted c) as [n|];
    [|discriminate].
  destruct (str_falsy k || str_falsy l || str_falsy n); [discriminate|].
  destruct (decrypt k); [discriminate|].
  destruct (decrypt n); [discriminate|].
  intros Hsent. exists p, c. split; [reflexivity|].
  destruct (checkboxIssueReceipt _ _ _ _); simpl in Hsent; congruence.
Qed.

(** C9: for every amount the conversion is the integer nearest to the
    amount times 100, a half going up; on an amount of at most two
    decimals, [k] hundredths, it returns exactly [k], and dividing that
    by 100 gives the amount back; and it is the conversion used at
    issuance: the price of the one line and the value of the one payment
    of every request the route sends are the conversion of the amount of
    the payment it read. *)
Theorem uahToKopiyky_rounds_to_nearest :
  (forall amount : Q,
      (amount * inject_Z 100 - (1 # 2) < inject_Z (uahToKopiyky amount)
       /\ inject_Z (uahToKopiyky amount) <= amount * inject_Z 100 + (1 # 2))%Q)
  /\ (forall (amount : Q) (k : Z),
         (amount == inject_Z k / inject_Z 100)%Q ->
         uahToKopiyky amount = k
         /\ (minorToAmount (uahToKopiyky amount) == amount)%Q)
  /\ (forall db paymentId request,
         sent (create_route decrypt checkboxIssueReceipt db paymentId)
         = Some request ->
         exists payment company,
           select_payment db paymentId = Some (payment, company)
           /\ map good_price (goods request)
              = [uahToKopiyky (Payment.amount payment)]
           /\ map leg_value (legs request)
              = [uahToKopiyky (Payment.amount payment)]).
Proof.
  split; [exact uahToKopiyky_nearest|]. split; [exact uahToKopiyky_exact|].
  intros db paymentId request Hsent.
  destruct (sent_is_receipt_data db paymentId request Hsent)
    as (p & c & Hsel & ->).
  exists p, c. split; [exact Hsel|]. split; reflexivity.
Qed.

End ReceiptRoute.

Lemma uahToKopiyky_rounds_to_nearest_witness :
  uahToKopiyky (150000 # 100) = 150000
  /\ (minorToAmount (uahToKopiyky (150000 # 100)) == 150000 # 100)%Q
  /\ exists payment company,
       select_payment Sample.one_payment 1 = Some (payment, company)
       /\ map good_price (goods (receipt_data payment company)) = [150000].
Proof.
  destruct (uahToKopiyky_rounds_to_nearest Sample.decrypt Sample.accepting)
    as (_ & Hexact & Hsent).
  destruct (Hexact (150000 # 100) 150000) as [Hk Hback]; [reflexivity|].
  split; [exact Hk|]. split; [exact Hback|].
  destruct (Hsent Sample.one_payment 1
              (receipt_data
                 (number_payment 1 (new_payment_row 1 (Sample.tx "TX-1")))
                 (Sample.company 1 "A" "11111111")))
    as (p & c & Hsel & Hprice & _); [reflexivity|].
  exists p, c. split; [exact Hsel|].
  vm_compute in Hsel. injection Hsel as <- <-. reflexivity.
Defined.

Lemma issued_payment_is_rejected_witness :
  response (create_route Sample.decrypt Sample.accepting Sample.issued 1)
  = AlreadyIssued
  /\ final_db Sample.issued
              (create_route Sample.decrypt Sample.accepting Sample.issued 1)
     = Sample.issued.
Proof.
  destruct (issued_payment_is_rejected Sample.decrypt Sample.accepting
              Sample.issued 1
              (Payment.set_receipt_issued
                 (number_payment 1 (new_payment_row 1 (Sample.tx "TX-1")))
                 true)
              (Sample.company 1 "A" "11111111"))
    as (Hresp & _ & _ & _ & Hdb & _).
  - lia.
  - reflexivity.
  - reflexivity.
  - split; assumption.
Defined.

Lemma fiscal_failure_leaves_database_witness :
  response (create_route Sample.decrypt Sample.refusing Sample.one_payment 1)
  = FiscalSubmissionFailed "503 Service Unavailable"
  /\ final_db Sample.one_payment
              (create_route Sample.decrypt Sample.refusing Sample.one_payment 1)
     = Sample.one_payment.
Proof.
  destruct (fiscal_failure_leaves_database Sample.decrypt Sample.refusing
              Sample.one_payment 1
              (number_payment 1 (new_payment_row 1 (Sample.tx "TX-1")))
              (Sample.company 1 "A" "11111111")
              "license" "cashier" "1234" "license" "1234"
              "503 Service Unavailable")
    as (Hresp & _ & _ & Hdb & _); try reflexivity; try discriminate.
  split; assumption.
Defined.

Lemma sent_receipt_uses_default_title_witness :
  exists payment company good,
    select_payment Sample.one_payment 1 = Some (payment, company)
    /\ receipt_data payment company = receipt_data payment company
    /\ goods (receipt_data payment company) = [good]
    /\ good_name good = "Перехідник HDMI-RCA"
    /\ good_code good = "1".
Proof.
  destruct (sent_receipt_uses_default_title Sample.decrypt Sample.accepting
              Sample.one_payment 1
              (receipt_data
                 (number_payment 1 (new_payment_row 1 (Sample.tx "TX-1")))
                 (Sample.company 1 "A" "11111111")))
    as [(p & c & g & Hsel & Hreq & Hgoods & Hname & Hcode) _].
  - reflexivity.
  - exists p, c, g. rewrite <- Hreq. repeat split; assumption.
Defined.

(** ** The ingestion loop *)


Lemma filter_and_length {A : Type} (f g : A -> bool) (l : list A) :
  (List.length (filter (fun x => f x && g x) l)
   <= List.length (filter f l))%nat.
Proof.
  induction l as [|x l IH]; simpl; [lia|].
  destruct (f x), (g x); simpl; lia.
Qed.

Lemma select_existing_le_holders (db : Database) (e : string) (c : Z) :
  (List.length (select_existing db e c) <= List.length (holders db e))%nat.
Proof. apply filter_and_length. Qed.

Lemma opt_eqb_Some (a b : string) :
  opt_eqb (Some a) b = true <-> a = b.
Proof. simpl. apply String.eqb_eq. Qed.

(** What one INSERT does to the table: nothing, or one row at the end. *)
Lemma insert_payment_rows (db : Database) (r : NewPayment) :
  match insert_payment db r with
  | (db', Throw _) => payments db' = payments db
  | (db', Return i) =>
      holders db (np_external_id r) = []
      /\ payments db' = (payments db ++ [number_payment i r])%list
  end.
Proof.
  unfold insert_payment.
  destruct (find_company db (np_company_id r)); [|reflexivity].
  destruct (holders db (np_external_id r)) eqn:Hh; simpl; auto.
Qed.

Section Ingestion.

Variable RawTx : Type.
Variable NUM_DOC : RawTx -> string.
Variable parsePrivatBankTransaction : RawTx -> Thrown ParsedPayment.

Let step := process_tx NUM_DOC parsePrivatBankTransaction.

(** The loop from an arbitrary state. *)
Let run (c : Z) (st : LoopState) (txs : list RawTx) : LoopState :=
  fold_left (step c) txs st.

Lemma step_rows (c : Z) (st : LoopState) (tx : RawTx) :
  payments (ls_db (step c st tx)) = payments (ls_db st)
  \/ exists payment i,
       parsePrivatBankTransaction tx = Return payment
       /\ select_existing (ls_db st) (pp_external_id payment) c = []
       /\ holders (ls_db st) (pp_external_id payment) = []
       /\ payments (ls_db (step c st tx))
          = (payments (ls_db st)
             ++ [number_payment i (new_payment_row c payment)])%list.
Proof.
  unfold step, process_tx.
  destruct (parsePrivatBankTransaction tx) as [m|payment] eqn:Hparse;
    [left; reflexivity|].
  destruct (select_existing (ls_db st) (pp_external_id payment) c) eqn:Hsel;
    [|left; reflexivity].
  pose proof (insert_payment_rows (ls_db st) (new_payment_row c payment))
    as Hins.
  destruct (insert_payment (ls_db st) (new_payment_row c payment))
    as [db' [m|i]]; simpl in *.
  - left. exact Hins.
  - right. exists payment, i. destruct Hins as [Hh Hrows]. auto.
Qed.

(** A transaction whose payment the tenant already holds only moves the
    duplicate counter. *)
Lemma step_duplicate (c : Z) (st : LoopState) (tx : RawTx)
                     (payment : ParsedPayment) :
  parsePrivatBankTransaction tx = Return payment ->
  select_existing (ls_db st) (pp_external_id payment) c <> [] ->
  step c st tx = bump_duplicate st.
Proof.
  intros Hparse Hsel. unfold step, process_tx. rewrite Hparse.
  destruct (select_existing (ls_db st) (pp_external_id payment) c);
    [congruence | reflexivity].
Qed.

Lemma step_keeps_existing (c : Z) (st : LoopState) (tx : RawTx)
                          (e : string) :
  select_existing (ls_db st) e c <> [] ->
  select_existing (ls_db (step c st tx)) e c = select_existing (ls_db st) e c.
Proof.
  intros Hsel. unfold select_existing in *.
  destruct (step_rows c st tx)
    as [-> | (payment & i & _ & Hnone & _ & ->)]; [reflexivity|].
  rewrite filter_app. simpl.
  destruct (String.eqb (pp_external_id payment) e) eqn:Heq; simpl.
  - apply String.eqb_eq in Heq. subst e.
    unfold select_existing in Hnone. congruence.
  - apply app_nil_r.
Qed.

Lemma run_keeps_existing (c : Z) (txs : list RawTx) (st : LoopState)
                         (e : string) :
  select_existing (ls_db st) e c <> [] ->
  select_existing (ls_db (run c st txs)) e c = select_existing (ls_db st) e c.
Proof.
  revert st. induction txs as [|tx txs IH]; intros st Hsel; [reflexivity|].
  simpl. fold (run c (step c st tx) txs).
  rewrite IH; rewrite (step_keeps_existing c st tx e Hsel); auto.
Qed.

Lemma step_keeps_unique (c : Z) (st : LoopState) (tx : RawTx) :
  external_ids_unique (ls_db st) ->
  external_ids_unique (ls_db (step c st tx)).
Proof.
  intros Huniq e. specialize (Huniq e). unfold holders in *.
  destruct (step_rows c st tx)
    as [-> | (payment & i & _ & _ & Hnone & ->)]; [exact Huniq|].
  rewrite filter_app, length_app. simpl.
  destruct (String.eqb (pp_external_id payment) e) eqn:Heq; simpl; [|lia].
  apply String.eqb_eq in Heq. subst e.
  unfold holders in Hnone. rewrite Hnone. simpl. lia.
Qed.

Lemma run_keeps_unique (c : Z) (txs : list RawTx) (st : LoopState) :
  external_ids_unique (ls_db st) ->
  external_ids_unique (ls_db (run c st txs)).
Proof.
  revert st. induction txs as [|tx txs IH]; intros st Huniq; [exact Huniq|].
  simpl. apply IH, step_keeps_unique, Huniq.
Qed.

Lemma step_duplicates_grow (c : Z) (st : LoopState) (tx : RawTx) :
  (duplicates st <= duplicates (step c st tx))%nat.
Proof.
  unfold step, process_tx.
  destruct (parsePrivatBankTransaction tx) as [m|payment]; simpl; [lia|].
  destruct (select_existing _ _ _); simpl; [|lia].
  destruct (insert_payment _ _) as [db' [m|i]]; simpl; lia.
Qed.

Lemma run_duplicates_grow (c : Z) (txs : list RawTx) (st : LoopState) :
  (duplicates st <= duplicates (run c st txs))%nat.
Proof.
  revert st. induction txs as [|tx txs IH]; intros st; simpl; [lia|].
  etransitivity; [apply (step_duplicates_grow c st tx) | apply IH].
Qed.







(** Each listed transaction that parses to an external id the tenant
    already holds moves the duplicate counter. *)
Lemma run_counts_duplicates (c : Z) (e : string) (txs : list RawTx)
                            (st : LoopState) :
  select_existing (ls_db st) e c <> [] ->
  (duplicates st
   + List.length (filter (carries parsePrivatBankTransaction e) txs)
   <= duplicates (run c st txs))%nat.
Proof.
  revert st. induction txs as [|tx txs IH]; intros st Hsel; simpl; [lia|].
  fold (run c (step c st tx) txs).
  pose proof (step_keeps_existing c st tx e Hsel) as Hkeep.
  assert (Hsel' : select_existing (ls_db (step c st tx)) e c <> [])
    by (rewrite Hkeep; exact Hsel).
  specialize (IH _ Hsel').
  pose proof (step_duplicates_grow c st tx) as Hgrow.
  unfold carries at 1.
  destruct (parsePrivatBankTransaction tx) as [m|payment] eqn:Hparse;
    [lia|].
  destruct (String.eqb (pp_external_id payment) e) eqn:Heq; [|lia].
  apply String.eqb_eq in Heq. subst e.
  rewrite (step_duplicate c st tx payment Hparse Hsel) in IH |- *.
  simpl in *. lia.
Qed.

Variable decrypt : string -> Thrown string.

(** A summary is the loop's account of what the bank listed. *)
Lemma summary_of_listing
    (bank : string -> string -> option string -> option string ->
            Thrown (list RawTx))
    (db db' : Database) (c : Z) (startDate endDate : option string)
    (total new dups : nat) (fails : list string) :
  fetch_route decrypt NUM_DOC parsePrivatBankTransaction bank db c
              startDate endDate
  = (db', FetchSummary total new dups fails) ->
  exists merchantId token txs,
    bank merchantId token startDate endDate = Return txs
    /\ total = List.length txs
    /\ db' = ls_db (run c (start_loop db) txs)
    /\ dups = duplicates (run c (start_loop db) txs).
Proof.
  unfold fetch_route.
  destruct (negb (0 <? c)); [discriminate|].
  destruct (find_company db c) as [company|]; [|discriminate].
  destruct (Company.pb_merchant_id company) as [m|]; [|discriminate].
  destruct (Company.pb_api_token_encrypted company) as [t|]; [|discriminate].
  destruct (str_falsy m || str_falsy t); [discriminate|].
  destruct (decrypt t) as [?|token]; [discriminate|].
  destruct (bank m token startDate endDate) as [?|txs] eqn:Hbank;
    [discriminate|].
  intros [= <- <- _ <- _]. exists m, token, txs. auto.
Qed.

(** C2, as the code has it: when the first ingestion has answered with a
    summary and left the tenant a payment for a transaction that parses,
    and a second ingestion over a range that lists the transaction answers
    with a summary, then the tenant's payments for the transaction are the
    same rows as before, the table holds exactly one row under its
    external id, and every listing of that external id in the range is
    counted as a duplicate in the summary. *)
Theorem reingest_is_counted_duplicate
    (bank1 bank2 : string -> string -> option string -> option string ->
                   Thrown (list RawTx))
    (db db1 db2 : Database) (c : Z)
    (startDate1 endDate1 startDate2 endDate2 : option string)
    (total1 new1 dups1 total2 new2 dups2 : nat) (fails1 fails2 : list string)
    (second : list RawTx) (tx : RawTx) (payment : ParsedPayment) :
  external_ids_unique db ->
  fetch_route decrypt NUM_DOC parsePrivatBankTransaction bank1 db c
              startDate1 endDate1
  = (db1, FetchSummary total1 new1 dups1 fails1) ->
  select_existing db1 (pp_external_id payment) c <> [] ->
  (forall merchantId token,
      bank2 merchantId token startDate2 endDate2 = Return second) ->
  In tx second ->
  parsePrivatBankTransaction tx = Return payment ->
  fetch_route decrypt NUM_DOC parsePrivatBankTransaction bank2 db1 c
              startDate2 endDate2
  = (db2, FetchSummary total2 new2 dups2 fails2) ->
  total2 = List.length second
  /\ select_existing db2 (pp_external_id payment) c
     = select_existing db1 (pp_external_id payment) c
  /\ List.length (select_existing db2 (pp_external_id payment) c) = 1%nat
  /\ List.length (holders db2 (pp_external_id payment)) = 1%nat
  /\ (List.length
        (filter (carries parsePrivatBankTransaction
                         (pp_external_id payment)) second)
      <= dups2)%nat
  /\ (1 <= dups2)%nat.
Proof.
  intros Huniq Hfirst Hstored Hbank Hin Hparse Hsecond.
  destruct (summary_of_listing _ _ _ _ _ _ _ _ _ _ Hfirst)
    as (m1 & t1 & first & _ & _ & Hdb1 & _).
  destruct (summary_of_listing _ _ _ _ _ _ _ _ _ _ Hsecond)
    as (m2 & t2 & listed & Hlisted & Htotal & Hdb2 & Hdups).
  rewrite Hbank in Hlisted. injection Hlisted as <-.
  assert (Huniq1 : external_ids_unique db1)
    by (rewrite Hdb1; apply run_keeps_unique; exact Huniq).
  assert (Hsame : select_existing db2 (pp_external_id payment) c
                  = select_existing db1 (pp_external_id payment) c)
    by (rewrite Hdb2; apply (run_keeps_existing c second (start_loop db1));
        exact Hstored).
  assert (Huniq2 : external_ids_unique db2)
    by (rewrite Hdb2; apply run_keeps_unique; exact Huniq1).
  pose proof (select_existing_le_holders db2 (pp_external_id payment) c)
    as Hle.
  specialize (Huniq2 (pp_external_id payment)).
  assert (Hsome : (1 <= List.length
                          (select_existing db2 (pp_external_id payment) c))%nat).
  { rewrite Hsame.
    destruct (select_existing db1 (pp_external_id payment) c);
      [congruence | simpl; lia]. }
  pose proof (run_counts_duplicates c (pp_external_id payment) second
                (start_loop db1) Hstored) as Hcount.
  rewrite <- Hdups in Hcount. simpl in Hcount.
  assert (Hone : (1 <= List.length
                         (filter (carries parsePrivatBankTransaction
                                          (pp_external_id payment))
                                 second))%nat).
  { assert (Hmem : In tx (filter (carries parsePrivatBankTransaction
                                          (pp_external_id payment)) second)).
    { apply filter_In. split; [exact Hin|]. unfold carries.
      rewrite Hparse. apply String.eqb_refl. }
    destruct (filter _ second); [contradiction | simpl; lia]. }
  split; [exact Htotal|]. split; [exact Hsame|]. repeat split; lia.
Qed.


End Ingestion.

Lemma reingest_is_counted_duplicate_witness :
  let second :=
    Sample.fetch Sample.one_payment 1 [Sample.tx "TX-2"; Sample.tx "TX-1"] in
  snd second = FetchSummary 2 1 1 []
  /\ List.length (holders (fst second) "TX-1") = 1%nat
  /\ (1 <= 1)%nat.
Proof.
  pose proof (reingest_is_counted_duplicate _ Sample.NUM_DOC Sample.parse
                Sample.decrypt
                (Sample.bank [Sample.tx "TX-1"])
                (Sample.bank [Sample.tx "TX-2"; Sample.tx "TX-1"])
                Sample.two_companies Sample.one_payment
                (fst (Sample.fetch Sample.one_payment 1
                        [Sample.tx "TX-2"; Sample.tx "TX-1"]))
                1 None None None None
                1 1 0 2 1 1 [] []
                [Sample.tx "TX-2"; Sample.tx "TX-1"]
                (Sample.tx "TX-1") (Sample.tx "TX-1")) as Hthm.
  destruct Hthm as (_ & _ & _ & Hone & _ & Hdup).
  - intros e. simpl. lia.
  - reflexivity.
  - vm_compute. discriminate.
  - reflexivity.
  - simpl. auto.
  - reflexivity.
  - reflexivity.
  - split; [reflexivity|]. split; assumption.
Defined.

(** C2, as stated, fails on the code.  A transaction the parser refuses is
    listed in both runs; each run reports it under errors, the second run
    counts no duplicate, and no payment is stored.  And a transaction whose
    external id another tenant's payment carries is reported under errors
    by every run of the second tenant, never as a duplicate. *)
Lemma refused_transaction_is_no_duplicate :
  (let first :=
     SampleStrict.fetch Sample.two_companies 1 [SampleStrict.malformed] in
   let second := SampleStrict.fetch (fst first) 1 [SampleStrict.malformed] in
   snd first
   = FetchSummary 1 0 0
       [failure_line Sample.NUM_DOC SampleStrict.malformed
                     "Invalid transaction: no currency"]
   /\ snd second
      = FetchSummary 1 0 0
          [failure_line Sample.NUM_DOC SampleStrict.malformed
                        "Invalid transaction: no currency"]
   /\ payments (fst second) = [])
  /\ (let first := Sample.fetch Sample.one_payment 2 [Sample.tx "TX-1"] in
      let second := Sample.fetch (fst first) 2 [Sample.tx "TX-1"] in
      snd first
      = FetchSummary 1 0 0
          [failure_line Sample.NUM_DOC (Sample.tx "TX-1") unique_violation]
      /\ snd second
         = FetchSummary 1 0 0
             [failure_line Sample.NUM_DOC (Sample.tx "TX-1") unique_violation]
      /\ select_existing (fst second) "TX-1" 2 = []).
Proof. vm_compute. repeat split; reflexivity. Qed.

(** C1, on the code: company 1 ingests transaction TX-1 and gets a payment;
    company 2 then ingests the same transaction, its duplicate check finds
    nothing, and the INSERT is rejected by the constraint on [external_id]
    alone.  The summary reports one error, company 2 holds no payment, and
    the table has the one row of company 1. *)
Theorem second_tenant_ingest_is_rejected :
  let first := Sample.fetch Sample.two_companies 1 [Sample.tx "TX-1"] in
  let second := Sample.fetch (fst first) 2 [Sample.tx "TX-1"] in
  snd first = FetchSummary 1 1 0 []
  /\ snd second
     = FetchSummary 1 0 0
         [failure_line Sample.NUM_DOC (Sample.tx "TX-1") unique_violation]
  /\ select_existing (fst second) "TX-1" 2 = []
  /\ map Payment.company_id (holders (fst second) "TX-1") = [1].
Proof. vm_compute. repeat split; reflexivity. Qed.

(** ** Receipts and flags *)

Lemma NoDup_map_inj_in {A B : Type} (f : A -> B) (l : list A) (x y : A) :
  NoDup (map f l) -> In x l -> In y l -> f x = f y -> x = y.
Proof.
  induction l as [|a l IH]; simpl; intros Hnd Hx Hy Heq; [contradiction|].
  inversion Hnd as [|? ? Hnotin Hnd']; subst.
  destruct Hx as [-> | Hx], Hy as [-> | Hy]; auto.
  - exfalso. apply Hnotin. rewrite Heq. apply in_map. exact Hy.
  - exfalso. apply Hnotin. rewrite <- Heq. apply in_map. exact Hx.
Qed.

Lemma consistent_fresh (cs : list Company.t) : consistent (fresh cs).
Proof.
  unfold consistent. simpl.
  split; [intros p []|]. split; [constructor|]. split; [intros r []|].
  intros pid. simpl. lia.
Qed.

(** A rejected INSERT: the sequence moved, the tables did not. *)
Lemma consistent_burnt (db : Database) :
  consistent db ->
  consistent (with_payments db (payments db) (payments_id_seq db + 1)).
Proof.
  intros (Hseq & Hnd & Href & Hone). repeat split; simpl; auto.
  intros p Hp. specialize (Hseq p Hp). lia.
Qed.

(** An accepted INSERT of a payment that is not flagged. *)
Lemma consistent_new_payment (db : Database) (r : NewPayment) :
  consistent db ->
  consistent (with_payments db
                (payments db ++ [number_payment (payments_id_seq db) r])
                (payments_id_seq db + 1)).
Proof.
  intros (Hseq & Hnd & Href & Hone). repeat split; simpl.
  - intros p Hp. apply in_app_iff in Hp. destruct Hp as [Hp | [<- | []]].
    + specialize (Hseq p Hp). lia.
    + simpl. lia.
  - rewrite map_app. simpl. apply NoDup_app; auto.
    + constructor; [intros [] | constructor].
    + intros i Hi [<- | []]. apply in_map_iff in Hi.
      destruct Hi as (p & Hid & Hp). specialize (Hseq p Hp). lia.
  - intros rc Hrc. destruct (Href rc Hrc) as (p & Hp & Hpid & Hflag).
    exists p. rewrite in_app_iff. auto.
  - exact Hone.
Qed.

Lemma consistent_insert_payment (db : Database) (r : NewPayment) :
  consistent db -> consistent (fst (insert_payment db r)).
Proof.
  intros Hc. unfold insert_payment.
  destruct (find_company db (np_company_id r)); simpl;
    [|apply consistent_burnt; exact Hc].
  destruct (holders db (np_external_id r)); simpl.
  - apply consistent_new_payment. exact Hc.
  - apply consistent_burnt. exact Hc.
Qed.

(** The two writes of the receipt route, one after the other, on a payment
    that was read unflagged. *)
Lemma consistent_issue (db : Database) (paymentId : Z) (p : Payment.t)
                       (r : NewReceipt) :
  consistent db ->
  find_payment db paymentId = Some p ->
  Payment.receipt_issued p = false ->
  nr_payment_id r = paymentId ->
  consistent (update_receipt_issued (fst (insert_receipt db r)) paymentId).
Proof.
  intros (Hseq & Hnd & Href & Hone) Hfind Hflag Hpid.
  pose proof (find_payment_In _ _ _ Hfind) as Hin.
  pose proof (find_payment_id _ _ _ Hfind) as Hid.
  set (f := fun q => if Payment.id q =? paymentId
                     then Payment.set_receipt_issued q true else q).
  assert (Hfid : forall q, Payment.id (f q) = Payment.id q)
    by (intros q; unfold f; destruct (Payment.id q =? paymentId); reflexivity).
  assert (Hnone : receipts_of db paymentId = []).
  { destruct (receipts_of db paymentId) as [|rc rest] eqn:Hrs; [reflexivity|].
    exfalso.
    assert (Hrc : In rc (receipts_of db paymentId))
      by (rewrite Hrs; left; reflexivity).
    unfold receipts_of in Hrc. apply filter_In in Hrc.
    destruct Hrc as [Hrc Hmatch].
    destruct (Href rc Hrc) as (q & Hq & Hqid & Hqflag).
    rewrite Hqid in Hmatch. simpl in Hmatch. apply Z.eqb_eq in Hmatch.
    assert (q = p)
      by (apply (NoDup_map_inj_in Payment.id (payments db)); auto; lia).
    subst q. congruence. }
  unfold update_receipt_issued, insert_receipt. simpl. fold f.
  repeat split; simpl.
  - intros q Hq. apply in_map_iff in Hq. destruct Hq as (q0 & <- & Hq0).
    rewrite Hfid. apply Hseq. exact Hq0.
  - rewrite map_map. rewrite (map_ext _ Payment.id Hfid). exact Hnd.
  - intros rc Hrc. apply in_app_iff in Hrc. destruct Hrc as [Hrc | [<- | []]].
    + destruct (Href rc Hrc) as (q & Hq & Hqid & Hqflag).
      exists (f q). rewrite Hfid. repeat split; auto.
      * apply in_map. exact Hq.
      * unfold f. destruct (Payment.id q =? paymentId); auto.
    + exists (f p). rewrite Hfid. repeat split.
      * apply in_map. exact Hin.
      * simpl. congruence.
      * unfold f. rewrite Hid, Z.eqb_refl. reflexivity.
  - intros pid. unfold receipts_of. simpl. rewrite filter_app, length_app.
    simpl. rewrite Hpid.
    destruct (paymentId =? pid) eqn:Heq; simpl.
    + apply Z.eqb_eq in Heq. subst pid.
      fold (receipts_of db paymentId). rewrite Hnone. simpl. lia.
    + specialize (Hone pid). unfold receipts_of in Hone. lia.
Qed.

Section Invariant.

Variable decrypt : string -> Thrown string.
Variable RawTx : Type.
Variable NUM_DOC : RawTx -> string.
Variable parsePrivatBankTransaction : RawTx -> Thrown ParsedPayment.

Lemma consistent_step (c : Z) (st : LoopState) (tx : RawTx) :
  consistent (ls_db st) ->
  consistent (ls_db (process_tx NUM_DOC parsePrivatBankTransaction c st tx)).
Proof.
  intros Hc. unfold process_tx.
  destruct (parsePrivatBankTransaction tx) as [m|payment]; [exact Hc|].
  destruct (select_existing _ _ _); [|exact Hc].
  pose proof (consistent_insert_payment (ls_db st)
                (new_payment_row c payment) Hc) as Hins.
  destruct (insert_payment _ _) as [db' [m|i]]; exact Hins.
Qed.

Lemma consistent_fetch bank (db : Database) (c : Z)
                       (startDate endDate : option string) :
  consistent db ->
  consistent (fst (fetch_route decrypt NUM_DOC parsePrivatBankTransaction
                               bank db c startDate endDate)).
Proof.
  intros Hc. unfold fetch_route.
  destruct (negb (0 <? c)); [exact Hc|].
  destruct (find_company db c) as [company|]; [|exact Hc].
  destruct (Company.pb_merchant_id company) as [m|]; [|exact Hc].
  destruct (Company.pb_api_token_encrypted company) as [t|]; [|exact Hc].
  destruct (str_falsy m || str_falsy t); [exact Hc|].
  destruct (decrypt t) as [?|token]; [exact Hc|].
  destruct (bank m token startDate endDate) as [?|txs]; [exact Hc|].
  simpl. unfold process_all.
  assert (Hgen : forall st, consistent (ls_db st) ->
            consistent (ls_db (fold_left
              (process_tx NUM_DOC parsePrivatBankTransaction c) txs st))).
  { induction txs as [|tx txs IH]; intros st Hst; [exact Hst|].
    simpl. apply IH, consistent_step, Hst. }
  apply Hgen. exact Hc.
Qed.

Lemma consistent_create checkbox (db : Database) (paymentId : Z) :
  consistent db ->
  consistent (final_db db (create_route decrypt checkbox db paymentId)).
Proof.
  intros Hc. unfold create_route, final_db.
  destruct (negb (0 <? paymentId)); [exact Hc|].
  unfold select_payment.
  destruct (find_payment db paymentId) as [p|] eqn:Hfind; [|exact Hc].
  destruct (find_company db (Payment.company_id p)) as [c|]; [|exact Hc].
  destruct (Payment.receipt_issued p) eqn:Hflag; [exact Hc|].
  destruct (Company.checkbox_license_key_encrypted c) as [k|]; [|exact Hc].
  destruct (Company.checkbox_cashier_login c) as [l|]; [|exact Hc].
  destruct (Company.checkbox_cashier_pin_encrypted c) as [n|]; [|exact Hc].
  destruct (str_falsy k || str_falsy l || str_falsy n); [exact Hc|].
  destruct (decrypt k) as [?|key]; [exact Hc|].
  destruct (decrypt n) as [?|pin]; [exact Hc|].
  destruct (checkbox l pin key (receipt_data p c)) as [?|cb]; [exact Hc|].
  simpl.
  apply (consistent_issue db paymentId p (receipt_row p paymentId cb) Hc
                          Hfind Hflag eq_refl).
Qed.

Lemma reachable_consistent (db : Database) :
  reachable decrypt NUM_DOC parsePrivatBankTransaction db -> consistent db.
Proof.
  induction 1 as [cs | bank db c sd ed _ IH | checkbox db pid _ IH].
  - apply consistent_fresh.
  - apply consistent_fetch, IH.
  - apply consistent_create, IH.
Qed.

Lemma consistent_one_receipt (db : Database) :
  consistent db -> one_receipt_per_payment db /\ receipts_flagged db.
Proof.
  intros (Hseq & Hnd & Href & Hone).
  split; [exact Hone|].
  intros r paymentId Hr Hpid.
  destruct (Href r Hr) as (p & Hp & Hrp & Hflag).
  assert (Hid : Payment.id p = paymentId) by congruence.
  destruct (find_payment db paymentId) as [q|] eqn:Hfind.
  - exists q. split; [reflexivity|].
    assert (q = p).
    { apply (NoDup_map_inj_in Payment.id (payments db)); auto.
      - exact (find_payment_In _ _ _ Hfind).
      - rewrite (find_payment_id _ _ _ Hfind). auto. }
    subst q. exact Hflag.
  - exfalso. unfold find_payment in Hfind.
    pose proof (find_none _ _ Hfind p Hp) as Hno. simpl in Hno. lia.
Qed.

Lemma evolves_consistent (db0 db : Database) :
  consistent db0 ->
  evolves decrypt NUM_DOC parsePrivatBankTransaction db0 db ->
  consistent db.
Proof.
  intros Hstart Hev.
  induction Hev as [db0 | bank db0 db c sd ed _ IH | checkbox db0 db pid _ IH].
  - exact Hstart.
  - apply consistent_fetch, IH, Hstart.
  - apply consistent_create, IH, Hstart.
Qed.

(** C5, as the code has it: the schema puts no constraint on
    [receipts.payment_id] and the route writes the receipt and the flag
    in two statements.  From a database in which payment ids are unique
    and below their sequence, every receipt references a flagged payment
    and no payment has two receipts, ingestions and receipt calls that run
    one after the other, each to its end before the next starts and with
    every statement it issues carried out, lead only to databases in which
    at most one receipt references a payment and every referenced payment
    is flagged.  A schema just created is such a starting point, and so
    is the database [initDatabase] leaves. *)
Theorem sequential_calls_keep_one_receipt (db0 db : Database) :
  consistent db0 ->
  evolves decrypt NUM_DOC parsePrivatBankTransaction db0 db ->
  one_receipt_per_payment db /\ receipts_flagged db.
Proof.
  intros Hstart Hev.
  apply consistent_one_receipt, (evolves_consistent db0 db Hstart Hev).
Qed.

Lemma addressable_insert_payment (db : Database) (r : NewPayment) :
addressable db -> addressable (fst (insert_payment db r)).
Proof.
intros [Hseq Hrows]. unfold insert_payment.
destruct (find_company db (np_company_id r)) eqn:Hc; simpl;
  [|split; simpl; [lia | exact Hrows]].
destruct (holders db (np_external_id r)); simpl;
  [|split; simpl; [lia | exact Hrows]].
split; simpl; [lia|].
intros p Hp. apply in_app_iff in Hp. destruct Hp as [Hp | [<- | []]].
- exact (Hrows p Hp).
- simpl. split; [lia|]. unfold find_company in *. simpl. congruence.
Qed.

Lemma addressable_step (c : Z) (st : LoopState) (tx : RawTx) :
addressable (ls_db st) ->
addressable (ls_db (process_tx NUM_DOC parsePrivatBankTransaction c st tx)).
Proof.
intros Ha. unfold process_tx.
destruct (parsePrivatBankTransaction tx) as [m|payment]; [exact Ha|].
destruct (select_existing _ _ _); [|exact Ha].
pose proof (addressable_insert_payment (ls_db st)
              (new_payment_row c payment) Ha) as Hins.
destruct (insert_payment _ _) as [db' [m|i]]; exact Hins.
Qed.

Lemma addressable_fetch bank (db : Database) (c : Z)
                        (startDate endDate : option string) :
addressable db ->
addressable (fst (fetch_route decrypt NUM_DOC parsePrivatBankTransaction
                              bank db c startDate endDate)).
Proof.
intros Ha. unfold fetch_route.
destruct (negb (0 <? c)); [exact Ha|].
destruct (find_company db c) as [company|]; [|exact Ha].
destruct (Company.pb_merchant_id company) as [m|]; [|exact Ha].
destruct (Company.pb_api_token_encrypted company) as [t|]; [|exact Ha].
destruct (str_falsy m || str_falsy t); [exact Ha|].
destruct (decrypt t) as [?|token]; [exact Ha|].
destruct (bank m token startDate endDate) as [?|txs]; [exact Ha|].
simpl. unfold process_all.
assert (Hgen : forall st, addressable (ls_db st) ->
          addressable (ls_db (fold_left
            (process_tx NUM_DOC parsePrivatBankTransaction c) txs st))).
{ induction txs as [|tx txs IH]; intros st Hst; [exact Hst|].
  simpl. apply IH, addressable_step, Hst. }
apply Hgen. exact Ha.
Qed.

Lemma addressable_create checkbox (db : Database) (paymentId : Z) :
addressable db ->
addressable (final_db db (create_route decrypt checkbox db paymentId)).
Proof.
intros Ha. unfold create_route, final_db.
destruct (negb (0 <? paymentId)); [exact Ha|].
destruct (select_payment db paymentId) as [[p c]|]; [|exact Ha].
destruct (Payment.receipt_issued p); [exact Ha|].
destruct (Company.checkbox_license_key_encrypted c) as [k|]; [|exact Ha].
destruct (Company.checkbox_cashier_login c) as [l|]; [|exact Ha].
destruct (Company.checkbox_cashier_pin_encrypted c) as [n|]; [|exact Ha].
destruct (str_falsy k || str_falsy l || str_falsy n); [exact Ha|].
destruct (decrypt k) as [?|key]; [exact Ha|].
destruct (decrypt n) as [?|pin]; [exact Ha|].
destruct (checkbox l pin key (receipt_data p c)) as [?|cb]; [exact Ha|].
simpl. destruct Ha as [Hseq Hrows]. split; simpl; [exact Hseq|].
intros q Hq. apply in_map_iff in Hq. destruct Hq as (q0 & <- & Hq0).
destruct (Hrows q0 Hq0) as [Hpos Hcomp].
destruct (Payment.id q0 =? paymentId); simpl; auto.
Qed.

Lemma reachable_addressable (db : Database) :
reachable decrypt NUM_DOC parsePrivatBankTransaction db -> addressable db.
Proof.
induction 1 as [cs | bank db c sd ed _ IH | checkbox db pid _ IH].
- split; simpl; [lia | intros p []].
- apply addressable_fetch, IH.
- apply addressable_create, IH.
Qed.

(** X24: in a database the routes have produced, the SELECT of the
    receipt route returns every stored payment when asked for its id, and
    that id passes the validation of the request. *)
Lemma select_payment_finds_stored (db : Database) (p : Payment.t) :
reachable decrypt NUM_DOC parsePrivatBankTransaction db ->
In p (payments db) ->
0 < Payment.id p
/\ exists c, select_payment db (Payment.id p) = Some (p, c).
Proof.
intros Hreach Hp.
destruct (reachable_addressable db Hreach) as [_ Hrows].
destruct (reachable_consistent db Hreach) as (_ & Hnd & _ & _).
destruct (Hrows p Hp) as [Hpos Hcomp]. split; [exact Hpos|].
unfold select_payment.
destruct (find_payment db (Payment.id p)) as [q|] eqn:Hfind.
- assert (q = p).
  { apply (NoDup_map_inj_in Payment.id (payments db)); auto.
    - exact (find_payment_In _ _ _ Hfind).
    - exact (find_payment_id _ _ _ Hfind). }
  subst q. destruct (find_company db (Payment.company_id p)) as [c|];
    [exists c; reflexivity | congruence].
- exfalso. unfold find_payment in Hfind.
  pose proof (find_none _ _ Hfind p Hp) as Hno. simpl in Hno. lia.
Qed.

(** The summary the ingestion route returns is the loop's: its counters
    and its database are those of [process_all] on the transactions the
    bank listed. *)
Lemma fetch_summary_is_loop bank (db db' : Database) (c : Z)
                            (startDate endDate : option string)
                            (total new dups : nat) (fails : list string) :
fetch_route decrypt NUM_DOC parsePrivatBankTransaction bank db c
            startDate endDate
= (db', FetchSummary total new dups fails) ->
exists txs,
  let st := process_all NUM_DOC parsePrivatBankTransaction c db txs in
  total = List.length txs /\ db' = ls_db st /\ new = newPayments st
  /\ dups = duplicates st /\ fails = errors st.
Proof.
unfold fetch_route.
destruct (negb (0 <? c)); [discriminate|].
destruct (find_company db c) as [company|]; [|discriminate].
destruct (Company.pb_merchant_id company) as [m|]; [|discriminate].
destruct (Company.pb_api_token_encrypted company) as [t|]; [|discriminate].
destruct (str_falsy m || str_falsy t); [discriminate|].
destruct (decrypt t) as [?|token]; [discriminate|].
destruct (bank m token startDate endDate) as [?|txs]; [discriminate|].
intros [= <- <- <- <- <-]. exists txs. simpl. auto.
Qed.

End Invariant.

Lemma sample_one_payment_reachable :
  reachable Sample.decrypt Sample.NUM_DOC Sample.parse Sample.one_payment.
Proof.
  apply (reach_fetch Sample.decrypt _ Sample.NUM_DOC Sample.parse
           (Sample.bank [Sample.tx "TX-1"]) Sample.two_companies 1 None None).
  apply reach_fresh.
Qed.

(** Both starting points satisfy the premise: a schema just created, and
    the database [initDatabase] leaves, whose sample data has no
    receipt. *)
Lemma initDatabase_consistent (d1 d2 d3 d4 d5 : string) :
  consistent (initDatabase d1 d2 d3 d4 d5).
Proof.
  unfold consistent. simpl. split; [|split; [|split]].
  - intros p Hp.
    repeat (destruct Hp as [<- | Hp]; [simpl; lia|]). contradiction.
  - repeat constructor; simpl; intuition lia.
  - intros r [].
  - intros pid. simpl. lia.
Qed.

Lemma sequential_calls_keep_one_receipt_witness :
  one_receipt_per_payment Sample.issued /\ receipts_flagged Sample.issued.
Proof.
  apply (sequential_calls_keep_one_receipt Sample.decrypt _ Sample.NUM_DOC
           Sample.parse Sample.one_payment Sample.issued).
  - apply (reachable_consistent Sample.decrypt _ Sample.NUM_DOC Sample.parse).
    apply sample_one_payment_reachable.
  - apply (evolves_create Sample.decrypt _ Sample.NUM_DOC Sample.parse
             Sample.accepting Sample.one_payment Sample.one_payment 1).
    apply evolves_refl.
Defined.

Lemma sample_one_payment_durable :
  durable Sample.decrypt Sample.NUM_DOC Sample.parse Sample.one_payment.
Proof.
  apply (durable_fetch Sample.decrypt _ Sample.NUM_DOC Sample.parse
           (Sample.bank [Sample.tx "TX-1"]) Sample.two_companies 1 None None).
  apply durable_fresh.
Qed.

Lemma sample_after_insert_durable :
  durable Sample.decrypt Sample.NUM_DOC Sample.parse Sample.after_insert.
Proof.
  apply (durable_create Sample.decrypt _ Sample.NUM_DOC Sample.parse
           Sample.accepting Sample.one_payment 1).
  - apply sample_one_payment_durable.
  - left. reflexivity.
Qed.

(** The state after the first INSERT alone already has a receipt whose
    payment is read back unflagged. *)
Remark orphan_receipt_after_insert :
~ receipts_flagged Sample.after_insert.
Proof.
intros Hflagged.
destruct (Hflagged (number_receipt 1
                      (receipt_row
                         (number_payment 1
                            (new_payment_row 1 (Sample.tx "TX-1")))
                         1 Sample.receipt))
                   1) as (p & Hfind & Hflag).
- left. reflexivity.
- reflexivity.
- vm_compute in Hfind. injection Hfind as <-. discriminate.
Qed.

(** C5, as stated, fails on the code.  The table takes a second receipt for
    a payment that already has one; between the INSERT and the UPDATE of a
    receipt call the database durably holds a receipt whose payment is not
    flagged; and a call that starts from that state passes the flag check
    and has its INSERT accepted, which leaves two receipts for payment 1 in
    a durable state. *)
Lemma receipts_neither_unique_nor_atomic :
List.length
  (receipts_of
     (fst (insert_receipt Sample.issued
             (receipt_row
                (number_payment 1 (new_payment_row 1 (Sample.tx "TX-1")))
                1 Sample.receipt)))
     1) = 2%nat
/\ (durable Sample.decrypt Sample.NUM_DOC Sample.parse Sample.after_insert
    /\ ~ receipts_flagged Sample.after_insert)
/\ ~ (forall db,
        durable Sample.decrypt Sample.NUM_DOC Sample.parse db ->
        one_receipt_per_payment db /\ receipts_flagged db).
Proof.
split; [reflexivity|]. split.
- split; [apply sample_after_insert_durable|].
  apply orphan_receipt_after_insert.
- intros Hclaim.
  assert (Hd : durable Sample.decrypt Sample.NUM_DOC Sample.parse
                       Sample.after_second_insert).
  { apply (durable_create Sample.decrypt _ Sample.NUM_DOC Sample.parse
             Sample.accepting Sample.after_insert 1).
    - apply sample_after_insert_durable.
    - left. reflexivity. }
  destruct (Hclaim _ Hd) as [Hone _].
  specialize (Hone 1). vm_compute in Hone. lia.
Qed.

(** Two receipt calls for payment 1 that overlap: the second reads the
    payment after the INSERT of the first and before its UPDATE.  Each of
    the two runs to its end and answers with a created receipt, and the
    database they leave, in whichever order the two UPDATEs land, has two
    receipts for the payment. *)
Remark overlapping_calls_leave_two_receipts :
  let first := create_route Sample.decrypt Sample.accepting
                            Sample.one_payment 1 in
  let second := create_route Sample.decrypt Sample.accepting
                             Sample.after_insert 1 in
  let left := final_db Sample.after_insert second in
  hd_error (committed first) = Some Sample.after_insert
  /\ create_status (response first) = 200
  /\ create_status (response second) = 200
  /\ update_receipt_issued left 1 = left
  /\ List.length (receipts_of left 1) = 2%nat
  /\ durable Sample.decrypt Sample.NUM_DOC Sample.parse left.
Proof.
  split; [reflexivity|]. split; [reflexivity|]. split; [reflexivity|].
  split; [reflexivity|]. split; [reflexivity|].
  apply (durable_create Sample.decrypt _ Sample.NUM_DOC Sample.parse
           Sample.accepting Sample.after_insert 1).
  - apply sample_after_insert_durable.
  - right. left. reflexivity.
Qed.

(** * Further properties *)

(** ** The parts of an account *)

Lemma substring_split (s : string) (n a b : nat) :
  substring n (a + b) s = (substring n a s ++ substring (n + a) b s)%string.
Proof.
  revert s a. induction n as [|n IHn]; intros s a.
  - revert s. induction a as [|a IHa]; intros s.
    + destruct s; reflexivity.
    + destruct s as [|c s]; [reflexivity|].
      simpl. rewrite IHa. reflexivity.
  - destruct s as [|c s]; [destruct a; reflexivity|].
    simpl. apply IHn.
Qed.

Lemma substring_whole (s : string) : substring 0 (String.length s) s = s.
Proof.
  induction s as [|c s IH]; [reflexivity|]. simpl. rewrite IH. reflexivity.
Qed.

Lemma substring_length (s : string) (n m : nat) :
  (n + m <= String.length s)%nat -> String.length (substring n m s) = m.
Proof.
  revert s m. induction n as [|n IHn]; intros s m Hlen.
  - revert s Hlen. induction m as [|m IHm]; intros s Hlen.
    + destruct s; reflexivity.
    + destruct s as [|c s]; [simpl in Hlen; lia|].
      simpl. rewrite IHm; [reflexivity | simpl in Hlen; lia].
  - destruct s as [|c s]; [simpl in Hlen; lia|].
    simpl. apply IHn. simpl in Hlen. lia.
Qed.

(** X1: the parts are given exactly for an account of at least 19
    characters; the prefix then has 15 characters, the pattern 4, and
    prefix, pattern and suffix put together are the account again. *)
Theorem parts_reassemble (senderAccount : Nullable string) :
  match senderAccount, AccountParts.getAccountPatternParts senderAccount with
  | JValue account, Some parts =>
      (19 <= String.length account)%nat
      /\ (AccountParts.prefix parts ++ AccountParts.pattern parts
          ++ AccountParts.suffix parts)%string = account
      /\ String.length (AccountParts.prefix parts) = 15%nat
      /\ String.length (AccountParts.pattern parts) = 4%nat
  | JValue account, None => (String.length account < 19)%nat
  | _, Some _ => False
  | _, None => True
  end.
Proof.
  destruct senderAccount as [| |account]; [exact I | exact I |].
  unfold AccountParts.getAccountPatternParts.
  destruct (Nat.lt_ge_cases (String.length account) 19) as [Hlt | Hge].
  - rewrite (length_guard_stops account Hlt). exact Hlt.
  - rewrite (length_guard_passes account Hge).
    cbn [AccountParts.prefix AccountParts.pattern AccountParts.suffix].
    unfold js_substring_from, js_substring.
    rewrite (Nat.min_l 19), (Nat.max_r 19) by exact Hge.
    change (Nat.min 0 15) with 0%nat. change (Nat.max 0 15 - 0)%nat with 15%nat.
    change (Nat.min 15 19) with 15%nat.
    change (Nat.max 15 19 - 15)%nat with 4%nat.
    split; [exact Hge|]. split; [|split; apply substring_length; lia].
    rewrite <- (substring_split account 15 4).
    rewrite <- (substring_split account 0 15).
    replace (15 + (4 + (String.length account - 19)))%nat
      with (String.length account) by lia.
    apply substring_whole.
Qed.

(** X2: whenever the parts are given, their match flag is the negation of
    the classifier without the exclusion, and of the classifier with it on
    every account but the courier's. *)
Theorem parts_match_classifier (senderAccount : Nullable string)
                               (parts : AccountParts.t) :
  AccountParts.getAccountPatternParts senderAccount = Some parts ->
  AccountParts.isMatched parts
  = negb (AccountUtilsPlain.isTargetAccount senderAccount)
  /\ (senderAccount <> JValue AccountUtils.NOVA_POSHTA_ACCOUNT ->
      AccountParts.isMatched parts
      = negb (AccountUtils.isTargetAccount senderAccount)).
Proof.
  destruct senderAccount as [| |account]; simpl; try discriminate.
  destruct (str_falsy account || (String.length account <? 19)%nat);
    [discriminate|].
  intros [= <-]. simpl. split.
  - symmetry. apply negb_involutive.
  - intros Hne.
    assert (Hneq : account <> AccountUtils.NOVA_POSHTA_ACCOUNT) by congruence.
    apply String.eqb_neq in Hneq. rewrite Hneq.
    symmetry. apply negb_involutive.
Qed.

Lemma parts_match_classifier_witness :
  exists parts,
    AccountParts.getAccountPatternParts
      (JValue "UA843052990000026001031613189") = Some parts
    /\ AccountParts.isMatched parts
       = negb (AccountUtilsPlain.isTargetAccount
                 (JValue "UA843052990000026001031613189")).
Proof.
  destruct (AccountParts.getAccountPatternParts
              (JValue "UA843052990000026001031613189")) as [parts|] eqn:Hparts;
    [|vm_compute in Hparts; discriminate Hparts].
  exists parts. split; [reflexivity|].
  exact (proj1 (parts_match_classifier _ parts Hparts)).
Defined.

(** On the courier account the list shows no match although the account
    is classified as non-target. *)
Remark courier_account_shows_no_match :
  option_map AccountParts.isMatched
    (AccountParts.getAccountPatternParts
       (JValue AccountUtils.NOVA_POSHTA_ACCOUNT)) = Some false
  /\ AccountUtils.isTargetAccount (JValue AccountUtils.NOVA_POSHTA_ACCOUNT)
     = false.
Proof. split; reflexivity. Qed.

(** ** The migration of [is_target] *)

Lemma sql_is_plain (col : option string) :
  sql_is_target col = AccountUtilsPlain.isTargetAccount (of_column col).
Proof.
  destruct col as [account|]; [|reflexivity].
  unfold sql_is_target, of_column, AccountUtilsPlain.isTargetAccount.
  assert (Hempty : str_falsy account = true ->
                   (String.length account <? 19)%nat = true)
    by (destruct account; [reflexivity | discriminate]).
  destruct (str_falsy account);
    [rewrite (Hempty eq_refl); reflexivity | rewrite orb_false_l].
  destruct (String.length account <? 19)%nat; [reflexivity|].
  change (sql_substring account 16 4) with (js_substring account 15 19).
  unfold AccountUtilsPlain.NON_TARGET_PATTERNS.
  destruct (includes _ (js_substring account 15 19)); reflexivity.
Qed.

(** X3: the CASE expression of the migration computes, on every stored
    account (NULL included), what the classifier without the exclusion
    returns; it differs from the classifier with the exclusion on the
    courier account and nowhere else. *)
Theorem migration_matches_classifier (col : option string) :
  sql_is_target col = AccountUtilsPlain.isTargetAccount (of_column col)
  /\ (sql_is_target col = AccountUtils.isTargetAccount (of_column col)
      <-> col <> Some AccountUtils.NOVA_POSHTA_ACCOUNT).
Proof.
  split; [apply sql_is_plain|]. rewrite sql_is_plain.
  destruct col as [account|]; simpl; [|split; [discriminate | reflexivity]].
  destruct (String.eqb_spec account AccountUtils.NOVA_POSHTA_ACCOUNT)
    as [-> | Hne].
  - split; [discriminate | congruence].
  - split; [congruence|]. intros _.
    unfold AccountUtils.NON_TARGET_PATTERNS,
      AccountUtilsPlain.NON_TARGET_PATTERNS.
    destruct (str_falsy account || (String.length account <? 19)%nat);
      reflexivity.
Qed.

(** X4: after the migration every payment's [is_target] is the value of
    the classifier without the exclusion on its sender account; nothing
    else of a payment changes, neither do receipts, companies and
    sequences; and running the migration again changes nothing. *)
Theorem migration_rewrites_is_target_only (db : Database) :
  let db' := updateIsTargetPatterns db in
  (forall p, In p (payments db') ->
             Payment.is_target p
             = AccountUtilsPlain.isTargetAccount
                 (of_column (Payment.sender_account p)))
  /\ map (fun p => with_is_target p true) (payments db')
     = map (fun p => with_is_target p true) (payments db)
  /\ with_payments db' (payments db) (payments_id_seq db) = db
  /\ updateIsTargetPatterns db' = db'.
Proof.
  unfold updateIsTargetPatterns. simpl. repeat split.
  - intros p Hp. apply in_map_iff in Hp. destruct Hp as (q & <- & _).
    simpl. apply sql_is_plain.
  - rewrite map_map. apply map_ext. intros p. reflexivity.
  - destruct db; reflexivity.
  - unfold with_payments. simpl. f_equal. rewrite map_map.
    apply map_ext. intros p. reflexivity.
Qed.

(** ** Product codes *)

Lemma to_int_not_nil (n : Z) :
  Z.to_int n <> Decimal.Pos Decimal.Nil
  /\ Z.to_int n <> Decimal.Neg Decimal.Nil.
Proof.
  split; intros Hnil; pose proof (DecimalZ.of_to n) as Hback;
    rewrite Hnil in Hback; simpl in Hback; subst n; discriminate.
Qed.

Lemma toString_injective (n m : Z) : toString n = toString m -> n = m.
Proof.
  unfold toString. intros Heq.
  destruct (to_int_not_nil n) as [Hn1 Hn2].
  destruct (to_int_not_nil m) as [Hm1 Hm2].
  pose proof (NilZero.isi (Z.to_int n) Hn1 Hn2) as Hn.
  pose proof (NilZero.isi (Z.to_int m) Hm1 Hm2) as Hm.
  rewrite Heq in Hn. rewrite Hn in Hm. injection Hm as Hm.
  apply DecimalZ.to_int_inj. exact Hm.
Qed.

(** X5: two payments get the same product code only if they have the same
    id, whatever their companies. *)
Theorem product_code_identifies_payment
    (c1 c2 : CompanyInfo) (p1 p2 : PaymentInfo) :
  ProductTitle.getProductCode c1 p1 = ProductTitle.getProductCode c2 p2 ->
  pi_id p1 = pi_id p2.
Proof. unfold ProductTitle.getProductCode. apply toString_injective. Qed.

Lemma product_code_identifies_payment_witness :
  pi_id {| pi_id := 7; pi_description := None; pi_amount := 1;
           pi_sender_name := None |} = 7.
Proof.
  apply (product_code_identifies_payment
           {| ci_id := 1; ci_name := "A"; ci_tax_id := None |}
           {| ci_id := 2; ci_name := "B"; ci_tax_id := None |}
           {| pi_id := 7; pi_description := None; pi_amount := 1;
              pi_sender_name := None |}
           {| pi_id := 7; pi_description := Some "x"; pi_amount := 2;
              pi_sender_name := None |}).
  reflexivity.
Defined.

(** ** What an ingestion writes *)

Lemma classifier_reads_column (v : Nullable string) :
  AccountUtils.isTargetAccount (of_column (to_column v))
  = AccountUtils.isTargetAccount v.
Proof. destruct v; reflexivity. Qed.

Lemma own_row_widen (c lo hi lo' hi' : Z) (p : Payment.t) :
  lo' <= lo -> hi <= hi' -> own_row c lo hi p -> own_row c lo' hi' p.
Proof.
  unfold own_row. intros Hlo Hhi (Hc & Hf & Hr & Hid & Ht).
  repeat split; auto; lia.
Qed.

Section IngestionEffects.

Variable decrypt : string -> Thrown string.
Variable RawTx : Type.
Variable NUM_DOC : RawTx -> string.
Variable parsePrivatBankTransaction : RawTx -> Thrown ParsedPayment.

Let step := process_tx NUM_DOC parsePrivatBankTransaction.

Lemma step_effect (c : Z) (st : LoopState) (tx : RawTx) :
  receipts (ls_db (step c st tx)) = receipts (ls_db st)
  /\ companies (ls_db (step c st tx)) = companies (ls_db st)
  /\ receipts_id_seq (ls_db (step c st tx)) = receipts_id_seq (ls_db st)
  /\ payments_id_seq (ls_db st) <= payments_id_seq (ls_db (step c st tx))
  /\ (newPayments (step c st tx) + duplicates (step c st tx)
      + List.length (errors (step c st tx))
      = S (newPayments st + duplicates st + List.length (errors st)))%nat
  /\ ((payments (ls_db (step c st tx)) = payments (ls_db st)
       /\ newPayments (step c st tx) = newPayments st)
      \/ exists payment,
           payments (ls_db (step c st tx))
           = payments (ls_db st)
             ++ [number_payment (payments_id_seq (ls_db st))
                                (new_payment_row c payment)]
           /\ payments_id_seq (ls_db (step c st tx))
              = payments_id_seq (ls_db st) + 1
           /\ newPayments (step c st tx) = S (newPayments st)).
Proof.
  unfold step, process_tx.
  destruct (parsePrivatBankTransaction tx) as [m|payment]; simpl.
  { repeat split; try lia. - rewrite length_app. simpl. lia. - auto. }
  destruct (select_existing (ls_db st) (pp_external_id payment) c); simpl.
  2:{ repeat split; try lia. auto. }
  unfold insert_payment.
  destruct (find_company (ls_db st) _); simpl.
  2:{ repeat split; try lia. - rewrite length_app. simpl. lia. - auto. }
  destruct (holders (ls_db st) _); simpl.
  - repeat split; try lia. right. exists payment. auto.
  - repeat split; try lia. + rewrite length_app. simpl. lia. + auto.
Qed.

Lemma run_effect (c : Z) (txs : list RawTx) (st : LoopState) :
  let st' := fold_left (step c) txs st in
  receipts (ls_db st') = receipts (ls_db st)
  /\ companies (ls_db st') = companies (ls_db st)
  /\ receipts_id_seq (ls_db st') = receipts_id_seq (ls_db st)
  /\ payments_id_seq (ls_db st) <= payments_id_seq (ls_db st')
  /\ (newPayments st' + duplicates st' + List.length (errors st')
      = newPayments st + duplicates st + List.length (errors st)
        + List.length txs)%nat
  /\ exists added,
       payments (ls_db st') = payments (ls_db st) ++ added
       /\ newPayments st' = (newPayments st + List.length added)%nat
       /\ Forall (own_row c (payments_id_seq (ls_db st))
                          (payments_id_seq (ls_db st'))) added.
Proof.
  revert st. induction txs as [|tx txs IH]; intros st; simpl.
  { repeat split; try lia. exists []. rewrite app_nil_r. simpl.
    repeat split; [lia | constructor]. }
  destruct (step_effect c st tx) as (Hr & Hc & Hs & Hseq & Hcount & Hrows).
  destruct (IH (step c st tx))
    as (Hr' & Hc' & Hs' & Hseq' & Hcount' & added & Hadd & Hnew & Hown).
  repeat split; try congruence; try lia.
  destruct Hrows as [[Hsame Hn] | (payment & Happ & Hnext & Hn)].
  - exists added. rewrite Hadd, Hsame. repeat split; [lia|].
    eapply Forall_impl; [|exact Hown].
    intros p. apply own_row_widen; lia.
  - exists (number_payment (payments_id_seq (ls_db st))
                           (new_payment_row c payment) :: added).
    rewrite Hadd, Happ, <- app_assoc. simpl. repeat split; [lia|].
    constructor.
    + unfold own_row. simpl. repeat split; try lia.
      symmetry. apply classifier_reads_column.
    + eapply Forall_impl; [|exact Hown].
      intros p. apply own_row_widen; lia.
Qed.

Lemma fetch_route_effect
    (bank : string -> string -> option string -> option string ->
            Thrown (list RawTx))
    (db : Database) (c : Z) (startDate endDate : option string) :
  let db' := fst (fetch_route decrypt NUM_DOC parsePrivatBankTransaction
                              bank db c startDate endDate) in
  (exists added,
      payments db' = payments db ++ added
      /\ Forall (own_row c (payments_id_seq db) (payments_id_seq db')) added)
  /\ receipts db' = receipts db /\ companies db' = companies db
  /\ receipts_id_seq db' = receipts_id_seq db
  /\ payments_id_seq db <= payments_id_seq db'.
Proof.
  assert (Hsame : (exists added,
                      payments db = payments db ++ added
                      /\ Forall (own_row c (payments_id_seq db)
                                         (payments_id_seq db)) added)
                  /\ receipts db = receipts db /\ companies db = companies db
                  /\ receipts_id_seq db = receipts_id_seq db
                  /\ payments_id_seq db <= payments_id_seq db).
  { split; [exists []; rewrite app_nil_r; split; [reflexivity | constructor]|].
    repeat split; lia. }
  unfold fetch_route.
  destruct (negb (0 <? c)); [exact Hsame|].
  destruct (find_company db c) as [company|]; [|exact Hsame].
  destruct (Company.pb_merchant_id company) as [m|]; [|exact Hsame].
  destruct (Company.pb_api_token_encrypted company) as [t|]; [|exact Hsame].
  destruct (str_falsy m || str_falsy t); [exact Hsame|].
  destruct (decrypt t) as [?|token]; [exact Hsame|].
  destruct (bank m token startDate endDate) as [?|txs]; [exact Hsame|].
  unfold process_all.
  destruct (run_effect c txs (start_loop db))
    as (Hr & Hc & Hs & Hseq & _ & added & Hadd & _ & Hown).
  simpl in *. split; [exists added; auto | auto].
Qed.

(** X6: an ingestion for tenant [c] leaves every stored payment, every
    receipt and every company as they are; what it adds comes after the
    stored payments, belongs to [c], is not flagged, references no receipt,
    takes its id from the sequence and its [is_target] from the classifier
    on the stored sender account.  The payments of any other tenant are
    the same before and after. *)
Theorem ingest_appends_own_rows
    (bank : string -> string -> option string -> option string ->
            Thrown (list RawTx))
    (db : Database) (c : Z) (startDate endDate : option string) :
  let db' := fst (fetch_route decrypt NUM_DOC parsePrivatBankTransaction
                              bank db c startDate endDate) in
  (exists added,
      payments db' = payments db ++ added
      /\ Forall (own_row c (payments_id_seq db) (payments_id_seq db')) added)
  /\ receipts db' = receipts db
  /\ companies db' = companies db
  /\ forall other, other <> c ->
       filter (fun p => Payment.company_id p =? other) (payments db')
       = filter (fun p => Payment.company_id p =? other) (payments db).
Proof.
  destruct (fetch_route_effect bank db c startDate endDate)
    as ((added & Hadd & Hown) & Hr & Hc & _ & _).
  simpl in *. repeat split; auto.
  - exists added. auto.
  - intros other Hother. rewrite Hadd, filter_app.
    assert (Hnone : filter (fun p => Payment.company_id p =? other) added = []).
    { clear Hadd. induction Hown as [|p added Hp _ IH]; [reflexivity|].
      simpl. destruct Hp as (Hpc & _).
      destruct (Z.eqb_spec (Payment.company_id p) other); [congruence|].
      exact IH. }
    rewrite Hnone. apply app_nil_r.
Qed.

(** X7: when the ingestion answers with a summary, every fetched
    transaction is counted once, as new, as duplicate or as error, and the
    table has grown by exactly the number of new payments. *)
Theorem summary_accounts_for_every_transaction
    (bank : string -> string -> option string -> option string ->
            Thrown (list RawTx))
    (db db' : Database) (c : Z) (startDate endDate : option string)
    (total new dups : nat) (fails : list string) :
  fetch_route decrypt NUM_DOC parsePrivatBankTransaction bank db c
              startDate endDate
  = (db', FetchSummary total new dups fails) ->
  total = (new + dups + List.length fails)%nat
  /\ List.length (payments db') = (List.length (payments db) + new)%nat.
Proof.
  intros Hrun.
  destruct (fetch_summary_is_loop decrypt _ NUM_DOC parsePrivatBankTransaction
              bank db db' c startDate endDate total new dups fails Hrun)
    as (txs & Htotal & Hdb & Hnew & Hdups & Hfails).
  unfold process_all in *.
  destruct (run_effect c txs (start_loop db))
    as (_ & _ & _ & _ & Hcount & added & Hadd & Hn & _).
  unfold step in *. simpl in *. subst.
  rewrite Hadd, length_app. split; lia.
Qed.

(** X8: an ingestion that does not answer with a summary has written
    nothing. *)
Theorem failed_ingest_writes_nothing
    (bank : string -> string -> option string -> option string ->
            Thrown (list RawTx))
    (db : Database) (c : Z) (startDate endDate : option string) :
  match fetch_route decrypt NUM_DOC parsePrivatBankTransaction bank db c
                    startDate endDate with
  | (_, FetchSummary _ _ _ _) => True
  | (db', _) => db' = db
  end.
Proof.
  unfold fetch_route.
  destruct (negb (0 <? c)); [reflexivity|].
  destruct (find_company db c) as [company|]; [|reflexivity].
  destruct (Company.pb_merchant_id company) as [m|]; [|reflexivity].
  destruct (Company.pb_api_token_encrypted company) as [t|]; [|reflexivity].
  destruct (str_falsy m || str_falsy t); [reflexivity|].
  destruct (decrypt t) as [?|token]; [reflexivity|].
  destruct (bank m token startDate endDate) as [?|txs]; [reflexivity|].
  exact I.
Qed.

End IngestionEffects.

Lemma summary_accounts_for_every_transaction_witness :
  (2 = 1 + 1 + 0)%nat
  /\ List.length
       (payments (fst (Sample.fetch Sample.one_payment 1
                         [Sample.tx "TX-2"; Sample.tx "TX-1"])))
     = (List.length (payments Sample.one_payment) + 1)%nat.
Proof.
  apply (summary_accounts_for_every_transaction Sample.decrypt _
           Sample.NUM_DOC Sample.parse
           (Sample.bank [Sample.tx "TX-2"; Sample.tx "TX-1"])
           Sample.one_payment _ 1 None None 2 1 1 []).
  reflexivity.
Defined.

(** ** What a receipt call writes *)

Lemma find_map_same_id (f : Payment.t -> Payment.t) (j : Z)
                       (l : list Payment.t) :
  (forall p, Payment.id (f p) = Payment.id p) ->
  find (fun p => Payment.id p =? j) (map f l)
  = option_map f (find (fun p => Payment.id p =? j) l).
Proof.
  intros Hid. induction l as [|p l IH]; [reflexivity|].
  simpl. rewrite Hid. destruct (Payment.id p =? j); [reflexivity | exact IH].
Qed.

Lemma flagging_keeps_id (j : Z) (p : Payment.t) :
  Payment.id (if Payment.id p =? j then Payment.set_receipt_issued p true
              else p) = Payment.id p.
Proof. destruct (Payment.id p =? j); reflexivity. Qed.

Section ReceiptEffects.

Variable decrypt : string -> Thrown string.
Variable checkboxIssueReceipt :
  string -> string -> string -> CheckboxCreateReceiptRequest ->
  Thrown CheckboxReceipt.

(** The shape of a run that answers with a created receipt. *)
Lemma created_run (db : Database) (paymentId receiptId : Z)
                  (cb : CheckboxReceipt) :
  response (create_route decrypt checkboxIssueReceipt db paymentId)
  = ReceiptCreated receiptId cb ->
  exists p c,
    select_payment db paymentId = Some (p, c)
    /\ Payment.receipt_issued p = false
    /\ receiptId = receipts_id_seq db
    /\ create_route decrypt checkboxIssueReceipt db paymentId
       = {| committed :=
              [fst (insert_receipt db (receipt_row p paymentId cb));
               update_receipt_issued
                 (fst (insert_receipt db (receipt_row p paymentId cb)))
                 paymentId];
            sent := Some (receipt_data p c);
            response := ReceiptCreated receiptId cb |}.
Proof.
  unfold create_route.
  destruct (negb (0 <? paymentId)); [discriminate|].
  destruct (select_payment db paymentId) as [[p c]|]; [|discriminate].
  destruct (Payment.receipt_issued p) eqn:Hflag; [discriminate|].
  destruct (Company.checkbox_license_key_encrypted c) as [k|]; [|discriminate].
  destruct (Company.checkbox_cashier_login c) as [l|]; [|discriminate].
  destruct (Company.checkbox_cashier_pin_encrypted c) as [n|]; [|discriminate].
  destruct (str_falsy k || str_falsy l || str_falsy n); [discriminate|].
  destruct (decrypt k) as [?|key]; [discriminate|].
  destruct (decrypt n) as [?|pin]; [discriminate|].
  destruct (checkboxIssueReceipt l pin key (receipt_data p c)) as [?|cb'];
    [discriminate|].
  simpl. intros [= <- <-]. exists p, c. auto.
Qed.

(** X9: a receipt call that answers 400, 404 or 502 (a request that does
    not validate, a payment that is not found or is issued already,
    credentials that are missing, a fiscal service that fails) has
    committed no statement, so the database is the one it started from. *)
Theorem unsuccessful_call_writes_nothing (db : Database) (paymentId : Z) :
  match response (create_route decrypt checkboxIssueReceipt db paymentId) with
  | ReceiptCreated _ _ | CreateFailed _ => True
  | _ =>
      committed (create_route decrypt checkboxIssueReceipt db paymentId) = []
      /\ final_db db (create_route decrypt checkboxIssueReceipt db paymentId)
         = db
  end.
Proof.
  unfold create_route, final_db.
  destruct (negb (0 <? paymentId)); [split; reflexivity|].
  destruct (select_payment db paymentId) as [[p c]|]; [|split; reflexivity].
  destruct (Payment.receipt_issued p); [split; reflexivity|].
  destruct (Company.checkbox_license_key_encrypted c) as [k|];
    [|split; reflexivity].
  destruct (Company.checkbox_cashier_login c) as [l|]; [|split; reflexivity].
  destruct (Company.checkbox_cashier_pin_encrypted c) as [n|];
    [|split; reflexivity].
  destruct (str_falsy k || str_falsy l || str_falsy n); [split; reflexivity|].
  destruct (decrypt k) as [?|key]; [exact I|].
  destruct (decrypt n) as [?|pin]; [exact I|].
  destruct (checkboxIssueReceipt l pin key (receipt_data p c));
    [split; reflexivity | exact I].
Qed.

(** X10: when the call answers with a created receipt, exactly one receipt
    row was added; it carries the answered id, references the payment and
    the payment's company, and has the payment's amount and the fiscal
    service's receipt id.  The payment is read back flagged and otherwise
    as it was, and every other payment is read back unchanged. *)
Theorem created_receipt_mirrors_payment
    (db : Database) (paymentId receiptId : Z) (cb : CheckboxReceipt) :
  response (create_route decrypt checkboxIssueReceipt db paymentId)
  = ReceiptCreated receiptId cb ->
  let db' := final_db db (create_route decrypt checkboxIssueReceipt db
                                       paymentId) in
  exists p c r,
    select_payment db paymentId = Some (p, c)
    /\ receipts db' = receipts db ++ [r]
    /\ Receipt.id r = receiptId
    /\ Receipt.payment_id r = Some paymentId
    /\ Receipt.company_id r = Payment.company_id p
    /\ Receipt.amount r = Payment.amount p
    /\ Receipt.checkbox_receipt_id r = Some (cb_id cb)
    /\ select_payment db' paymentId
       = Some (Payment.set_receipt_issued p true, c)
    /\ (forall other, other <> paymentId ->
          find_payment db' other = find_payment db other)
    /\ companies db' = companies db.
Proof.
  intros Hresp. destruct (created_run db paymentId receiptId cb Hresp)
    as (p & c & Hsel & Hflag & Hrid & Hrun).
  rewrite Hrun. unfold final_db. simpl.
  exists p, c, (number_receipt receiptId (receipt_row p paymentId cb)).
  rewrite Hrid. repeat split; auto.
  - unfold select_payment, find_payment in *. simpl.
    rewrite (find_map_same_id _ paymentId _ (flagging_keeps_id paymentId)).
    destruct (find (fun q => Payment.id q =? paymentId) (payments db))
      as [q|] eqn:Hfind; [|discriminate].
    simpl. apply find_some in Hfind. destruct Hfind as [_ Hq]. rewrite Hq.
    simpl. unfold find_company in *. simpl.
    destruct (find _ (companies db)); [|discriminate].
    injection Hsel as <- <-. reflexivity.
  - intros other Hother. unfold find_payment. simpl.
    rewrite (find_map_same_id _ other _ (flagging_keeps_id paymentId)).
    destruct (find (fun q => Payment.id q =? other) (payments db))
      as [q|] eqn:Hfind; [|reflexivity].
    simpl. apply find_some in Hfind. destruct Hfind as [_ Hq].
    apply Z.eqb_eq in Hq.
    destruct (Z.eqb_spec (Payment.id q) paymentId); [lia | reflexivity].
Qed.

(** X11: after a call that created a receipt, any further call for the same
    payment is answered as already issued, sends nothing and writes
    nothing, whatever the fiscal service would answer. *)
Theorem second_call_is_rejected
    (db : Database) (paymentId receiptId : Z) (cb : CheckboxReceipt)
    (again : string -> string -> string -> CheckboxCreateReceiptRequest ->
             Thrown CheckboxReceipt) :
  response (create_route decrypt checkboxIssueReceipt db paymentId)
  = ReceiptCreated receiptId cb ->
  let db' := final_db db (create_route decrypt checkboxIssueReceipt db
                                       paymentId) in
  create_route decrypt again db' paymentId = stopped AlreadyIssued.
Proof.
  intros Hresp. destruct (created_run db paymentId receiptId cb Hresp)
    as (p & c & Hsel & Hflag & Hrid & Hrun).
  assert (Hpos : (0 <? paymentId) = true).
  { unfold create_route in Hresp.
    destruct (0 <? paymentId); [reflexivity | discriminate]. }
  rewrite Hrun. unfold final_db. simpl. unfold create_route.
  rewrite Hpos. simpl.
  assert (Hsel' : select_payment
                    (update_receipt_issued
                       (fst (insert_receipt db (receipt_row p paymentId cb)))
                       paymentId) paymentId
                  = Some (Payment.set_receipt_issued p true, c)).
  { unfold select_payment, find_payment in *. simpl.
    rewrite (find_map_same_id _ paymentId _ (flagging_keeps_id paymentId)).
    destruct (find (fun q => Payment.id q =? paymentId) (payments db))
      as [q|] eqn:Hfind; [|discriminate].
    simpl. apply find_some in Hfind. destruct Hfind as [_ Hq]. rewrite Hq.
    simpl. unfold find_company in *. simpl.
    destruct (find _ (companies db)); [|discriminate].
    injection Hsel as <- <-. reflexivity. }
  simpl in Hsel'. rewrite Hsel'. reflexivity.
Qed.

(** X12: the outcome of a receipt call does not depend on [is_target]:
    with that column rewritten in any way the call gives the same answer,
    sends the same request, and leaves the same receipts and the same
    flags. *)
Theorem receipt_call_ignores_is_target
    (f : Payment.t -> bool) (db : Database) (paymentId : Z) :
  let run := create_route decrypt checkboxIssueReceipt db paymentId in
  let run' :=
    create_route decrypt checkboxIssueReceipt (retarget f db) paymentId in
  response run' = response run
  /\ sent run' = sent run
  /\ receipts (final_db (retarget f db) run') = receipts (final_db db run)
  /\ map Payment.receipt_issued (payments (final_db (retarget f db) run'))
     = map Payment.receipt_issued (payments (final_db db run)).
Proof.
  assert (Hsel : select_payment (retarget f db) paymentId
                 = option_map (fun pc => (with_is_target (fst pc) (f (fst pc)),
                                          snd pc))
                              (select_payment db paymentId)).
  { unfold select_payment, find_payment, retarget. simpl.
    rewrite (find_map_same_id (fun p => with_is_target p (f p)) paymentId)
      by reflexivity.
    destruct (find _ (payments db)) as [p|]; [|reflexivity]. simpl.
    unfold find_company. simpl.
    destruct (find _ (companies db)); reflexivity. }
  assert (Hflags : map Payment.receipt_issued (payments (retarget f db))
                   = map Payment.receipt_issued (payments db)).
  { unfold retarget. simpl. rewrite map_map. apply map_ext. reflexivity. }
  unfold create_route, final_db.
  destruct (negb (0 <? paymentId)); [simpl; auto|].
  rewrite Hsel.
  destruct (select_payment db paymentId) as [[p c]|]; [|simpl; auto].
  simpl option_map. cbn [fst snd].
  change (Payment.receipt_issued (with_is_target p (f p)))
    with (Payment.receipt_issued p).
  destruct (Payment.receipt_issued p); [simpl; auto|].
  destruct (Company.checkbox_license_key_encrypted c) as [k|]; [|simpl; auto].
  destruct (Company.checkbox_cashier_login c) as [l|]; [|simpl; auto].
  destruct (Company.checkbox_cashier_pin_encrypted c) as [n|];
    [|simpl; auto].
  destruct (str_falsy k || str_falsy l || str_falsy n); [simpl; auto|].
  destruct (decrypt k) as [?|key]; [simpl; auto|].
  destruct (decrypt n) as [?|pin]; [simpl; auto|].
  change (receipt_data (with_is_target p (f p)) c) with (receipt_data p c).
  destruct (checkboxIssueReceipt l pin key (receipt_data p c)) as [?|cb];
    [simpl; auto|].
  simpl. repeat split.
  rewrite !map_map. apply map_ext. intros q. simpl.
  destruct (Payment.id q =? paymentId); reflexivity.
Qed.

End ReceiptEffects.

Lemma created_receipt_mirrors_payment_witness :
  exists r,
    receipts Sample.issued = receipts Sample.one_payment ++ [r]
    /\ Receipt.payment_id r = Some 1
    /\ (Receipt.amount r == 150000 # 100)%Q.
Proof.
  destruct (created_receipt_mirrors_payment Sample.decrypt Sample.accepting
              Sample.one_payment 1 1 Sample.receipt eq_refl)
    as (p & c & r & Hsel & Hrs & _ & Hpid & _ & Hamount & _).
  exists r. split; [exact Hrs|]. split; [exact Hpid|].
  rewrite Hamount. vm_compute in Hsel. injection Hsel as <- _. reflexivity.
Defined.

Lemma second_call_is_rejected_witness :
  create_route Sample.decrypt Sample.refusing Sample.issued 1
  = stopped AlreadyIssued.
Proof.
  apply (second_call_is_rejected Sample.decrypt Sample.accepting
           Sample.one_payment 1 1 Sample.receipt Sample.refusing).
  reflexivity.
Defined.

(** ** Issued stays issued *)

Lemma kept_refl (p : Payment.t) : kept p p.
Proof. unfold kept. auto. Qed.

Lemma kept_trans (p q r : Payment.t) : kept p q -> kept q r -> kept p r.
Proof.
  unfold kept. intros (Hc & Ht & Hf) (Hc' & Ht' & Hf').
  repeat split; [congruence | congruence | auto].
Qed.

Lemma kept_flagging (j : Z) (p : Payment.t) :
  kept p (if Payment.id p =? j then Payment.set_receipt_issued p true else p).
Proof.
  destruct (Payment.id p =? j); [|apply kept_refl].
  unfold kept. simpl. auto.
Qed.

Lemma Forall2_kept_refl (l : list Payment.t) : Forall2 kept l l.
Proof. induction l; constructor; [apply kept_refl | assumption]. Qed.

Lemma Forall2_kept_map (f : Payment.t -> Payment.t) (l k : list Payment.t) :
  (forall q, kept q (f q)) -> Forall2 kept l k -> Forall2 kept l (map f k).
Proof.
  intros Hf. induction 1 as [|p q l k Hpq _ IH]; simpl; constructor; auto.
  eapply kept_trans; [exact Hpq | apply Hf].
Qed.

Section Terminal.

Variable decrypt : string -> Thrown string.
Variable RawTx : Type.
Variable NUM_DOC : RawTx -> string.
Variable parsePrivatBankTransaction : RawTx -> Thrown ParsedPayment.

(** What any receipt call does to the two tables. *)
Lemma create_route_tables checkbox (db : Database) (paymentId : Z) :
  let db' := final_db db (create_route decrypt checkbox db paymentId) in
  (exists more, receipts db' = receipts db ++ more)
  /\ (payments db' = payments db
      \/ payments db'
         = map (fun p => if Payment.id p =? paymentId
                         then Payment.set_receipt_issued p true else p)
               (payments db)).
Proof.
  assert (Hsame : (exists more, receipts db = receipts db ++ more)
                  /\ (payments db = payments db
                      \/ payments db
                         = map (fun p => if Payment.id p =? paymentId
                                         then Payment.set_receipt_issued p true
                                         else p) (payments db))).
  { split; [exists []; symmetry; apply app_nil_r | left; reflexivity]. }
  unfold create_route, final_db.
  destruct (negb (0 <? paymentId)); [exact Hsame|].
  destruct (select_payment db paymentId) as [[p c]|]; [|exact Hsame].
  destruct (Payment.receipt_issued p); [exact Hsame|].
  destruct (Company.checkbox_license_key_encrypted c) as [k|]; [|exact Hsame].
  destruct (Company.checkbox_cashier_login c) as [l|]; [|exact Hsame].
  destruct (Company.checkbox_cashier_pin_encrypted c) as [n|]; [|exact Hsame].
  destruct (str_falsy k || str_falsy l || str_falsy n); [exact Hsame|].
  destruct (decrypt k) as [?|key]; [exact Hsame|].
  destruct (decrypt n) as [?|pin]; [exact Hsame|].
  destruct (checkbox l pin key (receipt_data p c)) as [?|cb]; [exact Hsame|].
  simpl. split; [eexists; reflexivity | right; reflexivity].
Qed.

(** X13: through any sequence of ingestions and receipt calls the stored
    payments stay in place and keep everything but the flag, a payment
    that is flagged as issued stays flagged, and no receipt is removed or
    changed: later payments and receipts only come after the earlier
    ones. *)
Theorem issued_stays_issued (db db' : Database) :
  evolves decrypt NUM_DOC parsePrivatBankTransaction db db' ->
  (exists stored added,
      payments db' = stored ++ added /\ Forall2 kept (payments db) stored)
  /\ exists more, receipts db' = receipts db ++ more.
Proof.
  induction 1 as [db | bank db db' c sd ed _ IH | checkbox db db' pid _ IH].
  - split; [exists (payments db), []; split;
              [symmetry; apply app_nil_r | apply Forall2_kept_refl]
           | exists []; symmetry; apply app_nil_r].
  - destruct IH as ((stored & added & Hp & Hkept) & (more & Hr)).
    destruct (fetch_route_effect decrypt _ NUM_DOC parsePrivatBankTransaction
                bank db' c sd ed)
      as ((added' & Hadd & _) & Hr' & _).
    simpl in *. split.
    + exists stored, (added ++ added').
      rewrite Hadd, Hp, app_assoc. auto.
    + exists more. congruence.
  - destruct IH as ((stored & added & Hp & Hkept) & (more & Hr)).
    destruct (create_route_tables checkbox db' pid)
      as ((more' & Hr') & Hps).
    simpl in *. split.
    + destruct Hps as [-> | ->].
      * exists stored, added. auto.
      * rewrite Hp, map_app. eexists _, _. split; [reflexivity|].
        apply Forall2_kept_map; [apply kept_flagging | exact Hkept].
    + exists (more ++ more'). rewrite Hr', Hr, app_assoc. reflexivity.
Qed.

End Terminal.

Lemma sample_evolves :
  evolves Sample.decrypt Sample.NUM_DOC Sample.parse
          Sample.one_payment Sample.issued.
Proof.
  apply (evolves_create Sample.decrypt _ Sample.NUM_DOC Sample.parse
           Sample.accepting Sample.one_payment Sample.one_payment 1).
  apply evolves_refl.
Qed.

Lemma issued_stays_issued_witness :
  exists more, receipts Sample.issued = receipts Sample.one_payment ++ more.
Proof.
  exact (proj2 (issued_stays_issued Sample.decrypt _ Sample.NUM_DOC
                  Sample.parse Sample.one_payment Sample.issued
                  sample_evolves)).
Defined.

(** ** Insert and look up *)





(** ** The company routes *)

Lemma filter_negb_all {A : Type} (f : A -> bool) (l : list A) :
  filter f l = [] -> filter (fun x => negb (f x)) l = l.
Proof.
  induction l as [|a l IH]; simpl; [reflexivity|].
  destruct (f a); [discriminate|]. intros Hnil. simpl. rewrite IH; auto.
Qed.

Lemma find_filter_other (cs : list Company.t) (id j : Z) :
  j <> id ->
  find (fun c => Company.id c =? j)
       (filter (fun c => negb (Company.id c =? id)) cs)
  = find (fun c => Company.id c =? j) cs.
Proof.
  intros Hne. induction cs as [|c cs IH]; simpl; [reflexivity|].
  destruct (Z.eqb_spec (Company.id c) id) as [Heq | Hneq]; simpl.
  - destruct (Z.eqb_spec (Company.id c) j); [lia | exact IH].
  - destruct (Company.id c =? j); [reflexivity | exact IH].
Qed.

Lemma find_filter_self (cs : list Company.t) (id : Z) :
  find (fun c => Company.id c =? id)
       (filter (fun c => negb (Company.id c =? id)) cs) = None.
Proof.
  induction cs as [|c cs IH]; simpl; [reflexivity|].
  destruct (Company.id c =? id) eqn:Heq; simpl; [exact IH|].
  rewrite Heq. exact IH.
Qed.

Lemma filter_nil_find {A : Type} (f : A -> bool) (l : list A) :
  filter f l = [] -> find f l = None.
Proof.
  induction l as [|a l IH]; simpl; [reflexivity|].
  destruct (f a); [discriminate | exact IH].
Qed.

(** X15: deleting a company never touches the payments table, and every
    other company is read back as before.  When the route deletes, the
    company had no payment and is gone, and every payment still has its
    company; when it answers that the company has payments, it has that
    many and nothing changed; when it answers that the company is not
    found, none has the id and nothing changed; and any other answer
    comes with nothing changed. *)
Theorem delete_spares_payments (db : Database) (id : Z) :
  let db' := fst (delete_company_route db id) in
  payments db' = payments db
  /\ (forall j, j <> id -> find_company db' j = find_company db j)
  /\ (addressable db -> addressable db')
  /\ match snd (delete_company_route db id) with
     | CompanyDeleted i _ =>
         i = id /\ find_company db' id = None
         /\ filter (fun p => Payment.company_id p =? id) (payments db) = []
     | HasPayments n =>
         db' = db /\ (0 < n)%nat
         /\ n = List.length
                  (filter (fun p => Payment.company_id p =? id) (payments db))
     | CompanyNotFound => db' = db /\ find_company db id = None
     | _ => db' = db
     end.
Proof.
  unfold delete_company_route.
  destruct (Nat.ltb_spec 0 (List.length
              (filter (fun p => Payment.company_id p =? id) (payments db))))
    as [Hsome | Hnone].
  { simpl. split; [|split; [|split]]; auto. }
  assert (Hnil : filter (fun p => Payment.company_id p =? id) (payments db)
                 = [])
    by (destruct (filter _ (payments db)); [reflexivity | simpl in Hnone; lia]).
  unfold delete_company.
  destruct (filter (fun c => Company.id c =? id) (companies db))
    as [|company rest] eqn:Hrows.
  { simpl. split; [|split; [|split]]; auto. split; [reflexivity|].
    unfold find_company. apply filter_nil_find. exact Hrows. }
  simpl. rewrite (filter_negb_all _ _ Hnil).
  assert (Hothers : forall j, j <> id ->
            find (fun c => Company.id c =? j)
                 (filter (fun c => negb (Company.id c =? id)) (companies db))
            = find_company db j)
    by (intros j Hj; apply find_filter_other; exact Hj).
  split; [reflexivity|]. split; [exact Hothers|]. split; [|split; [|split]].
  - intros [Hseq Hrowsok]. split; [exact Hseq|]. simpl.
    intros p Hp. destruct (Hrowsok p Hp) as [Hpos Hcomp]. split; [exact Hpos|].
    unfold find_company at 1. simpl. rewrite Hothers; [exact Hcomp|].
    intros Heq.
    assert (Hin : In p (filter (fun q => Payment.company_id q =? id)
                               (payments db)))
      by (apply filter_In; split; [exact Hp | apply Z.eqb_eq; exact Heq]).
    rewrite Hnil in Hin. exact Hin.
  - assert (Hin : In company (filter (fun c => Company.id c =? id)
                                     (companies db)))
      by (rewrite Hrows; left; reflexivity).
    apply filter_In in Hin. destruct Hin as [_ Hid]. lia.
  - unfold find_company. simpl. apply find_filter_self.
  - exact Hnil.
Qed.

Section CompanyProperties.

Variable encrypt : string -> Thrown string.
Variable decrypt : string -> Thrown string.

Lemma existsb_false_filter {A : Type} (f : A -> bool) (l : list A) :
  existsb f l = false -> filter f l = [].
Proof.
  induction l as [|a l IH]; simpl; [reflexivity|].
  destruct (f a); [discriminate | exact IH].
Qed.

(** X16: POST /api/companies creates a company only under a name and a
    tax id that are not empty, an id that no company has and a tax id
    that no company has; the new row comes last and has no cashier login.
    With any other answer the database is unchanged; payments and
    receipts are never touched. *)
Theorem post_company_adds_one_row (db : Database) (nextval : Z)
                                  (body : CreateCompanyBody) :
  match post_company encrypt db nextval body with
  | (db', CompanyCreated v) =>
      v_id v = nextval /\ v_name v = b_name body
      /\ v_tax_id v = b_tax_id body
      /\ b_name body <> "" /\ b_tax_id body <> ""
      /\ find_company db nextval = None
      /\ (forall c, In c (companies db) ->
                    Company.tax_id c <> b_tax_id body)
      /\ (exists row,
             companies db' = companies db ++ [row]
             /\ Company.id row = nextval
             /\ Company.tax_id row = b_tax_id body
             /\ Company.checkbox_cashier_login row = None)
      /\ payments db' = payments db /\ receipts db' = receipts db
  | (db', _) => db' = db
  end.
Proof.
  unfold post_company.
  destruct (str_falsy (b_name body) || str_falsy (b_tax_id body)) eqn:Hvalid;
    [reflexivity|].
  apply orb_false_iff in Hvalid. destruct Hvalid as [Hname Htax].
  destruct (encrypt_field encrypt (b_pb_api_token body)) as [?|token];
    [reflexivity|].
  destruct (encrypt_field encrypt (b_checkbox_license_key body))
    as [?|license]; [reflexivity|].
  destruct (encrypt_field encrypt (b_checkbox_cashier_pin body)) as [?|pin];
    [reflexivity|].
  unfold insert_company. simpl.
  destruct (existsb (fun c => Company.id c =? nextval) (companies db))
    eqn:Hid; [reflexivity|].
  destruct (existsb (fun c => String.eqb (Company.tax_id c) (b_tax_id body))
                    (companies db)) eqn:Htaken; [reflexivity|].
  simpl. repeat split.
  - intros Hempty. rewrite Hempty in Hname. discriminate.
  - intros Hempty. rewrite Hempty in Htax. discriminate.
  - apply filter_nil_find, existsb_false_filter. exact Hid.
  - intros c Hc Heq.
    assert (Hex : existsb (fun c => String.eqb (Company.tax_id c)
                                               (b_tax_id body))
                          (companies db) = true)
      by (apply existsb_exists; exists c; split;
          [exact Hc | apply String.eqb_eq; exact Heq]).
    congruence.
  - eexists. repeat split.
Qed.

Lemma secret_reads_back (v w : option string) :
  (forall x e, encrypt x = Return e -> e <> "" /\ decrypt e = Return x) ->
  encrypt_field encrypt v = Return w ->
  safeDecrypt decrypt w = or_null v.
Proof.
  intros Hcipher. unfold encrypt_field, safeDecrypt, or_null, col_falsy.
  destruct v as [x|]; [|intros [= <-]; reflexivity].
  destruct (str_falsy x) eqn:Hx; [intros [= <-]; reflexivity|].
  destruct (encrypt x) as [?|e] eqn:He; [discriminate|].
  intros [= <-]. destruct (Hcipher x e He) as [Hne Hdec].
  destruct e as [|a e]; [congruence|]. simpl. rewrite Hdec. reflexivity.
Qed.

(** X17: when decryption undoes encryption and no ciphertext is empty, GET
    /api/companies/[id] answers for a company just created exactly the
    company that POST answered: every secret is read back as it was
    sent, and an absent or empty one as null. *)
Theorem created_company_reads_back
    (db db' : Database) (nextval : Z) (body : CreateCompanyBody)
    (v : CompanyView) :
  (forall x e, encrypt x = Return e -> e <> "" /\ decrypt e = Return x) ->
  post_company encrypt db nextval body = (db', CompanyCreated v) ->
  get_company decrypt db' nextval = CompanyFetched v.
Proof.
  intros Hcipher. unfold post_company.
  destruct (str_falsy (b_name body) || str_falsy (b_tax_id body));
    [discriminate|].
  destruct (encrypt_field encrypt (b_pb_api_token body)) as [?|token] eqn:Ht;
    [discriminate|].
  destruct (encrypt_field encrypt (b_checkbox_license_key body))
    as [?|license] eqn:Hl; [discriminate|].
  destruct (encrypt_field encrypt (b_checkbox_cashier_pin body)) as [?|pin]
    eqn:Hp; [discriminate|].
  unfold insert_company. simpl.
  destruct (existsb (fun c => Company.id c =? nextval) (companies db))
    eqn:Hid; [discriminate|].
  destruct (existsb (fun c => String.eqb (Company.tax_id c) (b_tax_id body))
                    (companies db)); [discriminate|].
  simpl. intros [= <- <-]. unfold get_company. simpl.
  rewrite filter_app, (existsb_false_filter _ _ Hid). simpl.
  rewrite Z.eqb_refl. unfold view_company. simpl.
  rewrite (secret_reads_back _ _ Hcipher Ht),
          (secret_reads_back _ _ Hcipher Hl),
          (secret_reads_back _ _ Hcipher Hp).
  reflexivity.
Qed.

End CompanyProperties.

Lemma sample_cipher (x e : string) :
  SampleVault.encrypt x = Return e ->
  e <> "" /\ SampleVault.decrypt e = Return x.
Proof.
  unfold SampleVault.encrypt, SampleVault.decrypt. intros [= <-].
  split; [discriminate|]. simpl.
  rewrite Nat.sub_0_r, substring_whole. destruct x; reflexivity.
Qed.

Lemma created_company_reads_back_witness :
  get_company SampleVault.decrypt SampleVault.one_company 1
  = CompanyFetched
      {| v_id := 1; v_name := "A"; v_tax_id := "11111111";
         v_pb_merchant_id := Some "merchant";
         v_pb_api_token := Some "token";
         v_checkbox_license_key := Some "license";
         v_checkbox_cashier_pin := Some "1234" |}.
Proof.
  apply (created_company_reads_back SampleVault.encrypt SampleVault.decrypt
           (fresh []) SampleVault.one_company 1 SampleVault.body).
  - exact sample_cipher.
  - reflexivity.
Defined.

(** ** Updating a company *)

Lemma assign_all_fixed (updates : list Assignment) (c : Company.t) :
  Company.id (assign_all updates c) = Company.id c
  /\ Company.checkbox_cashier_login (assign_all updates c)
     = Company.checkbox_cashier_login c.
Proof.
  unfold assign_all. revert c.
  induction updates as [|a updates IH]; intros c; simpl; [auto|].
  destruct (IH (assign c a)) as [Hid Hlogin]. rewrite Hid, Hlogin. auto.
Qed.

Lemma find_map_company (f : Company.t -> Company.t) (j : Z)
                       (l : list Company.t) :
  (forall c, Company.id (f c) = Company.id c) ->
  find (fun c => Company.id c =? j) (map f l)
  = option_map f (find (fun c => Company.id c =? j) l).
Proof.
  intros Hid. induction l as [|c l IH]; [reflexivity|].
  simpl. rewrite Hid. destruct (Company.id c =? j); [reflexivity | exact IH].
Qed.

Lemma filter_head_find {A : Type} (f : A -> bool) (l r : list A) (a : A) :
  filter f l = a :: r -> find f l = Some a.
Proof.
  induction l as [|b l IH]; simpl; [discriminate|].
  destruct (f b); [intros [= -> _]; reflexivity | exact IH].
Qed.

Section UpdateCompany.

Variable encrypt : string -> Thrown string.

(** What the collected assignments make of a row, column by column. *)
Lemma collected_updates_write (body : UpdateCompanyBody)
                              (updates : list Assignment) (c : Company.t) :
  collect_updates encrypt body = Return updates ->
  Company.name (assign_all updates c)
  = match u_name body with Some v => v | None => Company.name c end
  /\ Company.tax_id (assign_all updates c)
     = match u_tax_id body with Some v => v | None => Company.tax_id c end
  /\ Company.pb_merchant_id (assign_all updates c)
     = match u_pb_merchant_id body with
       | JUndefined => Company.pb_merchant_id c
       | JNull => None
       | JValue v => Some v
       end
  /\ match u_pb_api_token body with
     | JUndefined =>
         Company.pb_api_token_encrypted (assign_all updates c)
         = Company.pb_api_token_encrypted c
     | JNull => Company.pb_api_token_encrypted (assign_all updates c) = None
     | JValue x =>
         encrypt_field encrypt (Some x)
         = Return (Company.pb_api_token_encrypted (assign_all updates c))
     end
  /\ match u_checkbox_license_key body with
     | JUndefined =>
         Company.checkbox_license_key_encrypted (assign_all updates c)
         = Company.checkbox_license_key_encrypted c
     | JNull =>
         Company.checkbox_license_key_encrypted (assign_all updates c) = None
     | JValue x =>
         encrypt_field encrypt (Some x)
         = Return (Company.checkbox_license_key_encrypted
                     (assign_all updates c))
     end
  /\ match u_checkbox_cashier_pin body with
     | JUndefined =>
         Company.checkbox_cashier_pin_encrypted (assign_all updates c)
         = Company.checkbox_cashier_pin_encrypted c
     | JNull =>
         Company.checkbox_cashier_pin_encrypted (assign_all updates c) = None
     | JValue x =>
         encrypt_field encrypt (Some x)
         = Return (Company.checkbox_cashier_pin_encrypted
                     (assign_all updates c))
     end.
Proof.
  unfold collect_updates, secret_update.
  destruct body as [n t m tok lic pin].
  cbn [u_name u_tax_id u_pb_merchant_id u_pb_api_token
       u_checkbox_license_key u_checkbox_cashier_pin].
  destruct tok as [| |x1];
    [| |destruct (encrypt_field encrypt (Some x1)) as [?|e1] eqn:H1;
        [discriminate|]];
    (destruct lic as [| |x2];
     [| |destruct (encrypt_field encrypt (Some x2)) as [?|e2] eqn:H2;
         [discriminate|]]);
    (destruct pin as [| |x3];
     [| |destruct (encrypt_field encrypt (Some x3)) as [?|e3] eqn:H3;
         [discriminate|]]);
    intros [= <-]; destruct n, t, m; simpl; repeat split; reflexivity.
Qed.

(** X18: when PUT answers that the company is updated, the stored row keeps
    its id and its cashier login; a field that was sent holds what was
    sent (a secret its ciphertext, NULL for null and for the empty
    string), a field that was left out holds what it held.  Every other
    company, every payment and every receipt is as before. *)
Theorem put_company_writes_what_was_sent
    (db db' : Database) (id : Z) (body : UpdateCompanyBody)
    (v : CompanyView) :
  put_company encrypt db id body = (db', CompanyUpdated v) ->
  exists c c',
    find_company db id = Some c /\ find_company db' id = Some c'
    /\ Company.id c' = id
    /\ Company.checkbox_cashier_login c' = Company.checkbox_cashier_login c
    /\ Company.name c'
       = match u_name body with Some n => n | None => Company.name c end
    /\ Company.tax_id c'
       = match u_tax_id body with Some t => t | None => Company.tax_id c end
    /\ Company.pb_merchant_id c'
       = match u_pb_merchant_id body with
         | JUndefined => Company.pb_merchant_id c
         | JNull => None
         | JValue m => Some m
         end
    /\ match u_pb_api_token body with
       | JUndefined =>
           Company.pb_api_token_encrypted c'
           = Company.pb_api_token_encrypted c
       | JNull => Company.pb_api_token_encrypted c' = None
       | JValue x =>
           encrypt_field encrypt (Some x)
           = Return (Company.pb_api_token_encrypted c')
       end
    /\ (forall j, j <> id -> find_company db' j = find_company db j)
    /\ payments db' = payments db /\ receipts db' = receipts db
    /\ v_id v = id /\ v_name v = Company.name c'
    /\ v_tax_id v = Company.tax_id c'.
Proof.
  unfold put_company.
  destruct (present_but_empty (u_name body)
            || present_but_empty (u_tax_id body)); [discriminate|].
  destruct (collect_updates encrypt body) as [?|updates] eqn:Hcollect;
    [discriminate|].
  destruct updates as [|a updates]; [discriminate|].
  set (all := a :: updates) in *.
  destruct (update_company db id all) as [[db1 rows]|] eqn:Hup;
    [|discriminate].
  destruct rows as [|company rest]; [discriminate|].
  intros [= <- <-].
  unfold update_company in Hup.
  set (upd := fun c => if Company.id c =? id then assign_all all c else c)
    in *.
  destruct (existsb _ (map upd (companies db))); [discriminate|].
  injection Hup as <- Hrows.
  assert (Hupd : forall c, Company.id (upd c) = Company.id c).
  { intros c. unfold upd. destruct (Company.id c =? id); [|reflexivity].
    apply assign_all_fixed. }
  pose proof (filter_head_find _ _ _ _ Hrows) as Hfound.
  rewrite (find_map_company upd id _ Hupd) in Hfound.
  destruct (find (fun c => Company.id c =? id) (companies db)) as [c|]
    eqn:Hfind; [|discriminate].
  simpl in Hfound. injection Hfound as Hcompany.
  pose proof (find_some _ _ Hfind) as [_ Hid]. apply Z.eqb_eq in Hid.
  assert (Hc' : upd c = assign_all all c)
    by (unfold upd; rewrite Hid, Z.eqb_refl; reflexivity).
  destruct (assign_all_fixed all c) as [Hsameid Hlogin].
  destruct (collected_updates_write body all c Hcollect)
    as (Hname & Htax & Hmerchant & Htoken & _).
  exists c, (assign_all all c). subst company.
  assert (Hfind' : find_company (with_companies db (map upd (companies db)))
                                id = Some (assign_all all c)).
  { unfold find_company. cbn [companies with_companies].
    rewrite (find_map_company upd id _ Hupd), Hfind.
    cbn [option_map]. rewrite Hc'. reflexivity. }
  split; [exact Hfind|]. split; [exact Hfind'|].
  split; [congruence|]. split; [exact Hlogin|]. split; [exact Hname|].
  split; [exact Htax|]. split; [exact Hmerchant|]. split; [exact Htoken|].
  split; [|cbn [v_id v_name v_tax_id payments receipts with_companies];
           rewrite Hc'; repeat split; congruence].
  intros j Hj. unfold find_company. cbn [companies with_companies].
  rewrite (find_map_company upd j _ Hupd).
  destruct (find (fun d => Company.id d =? j) (companies db)) as [d|]
    eqn:Hd; [|reflexivity].
  cbn [option_map]. pose proof (find_some _ _ Hd) as [_ Hjd].
  apply Z.eqb_eq in Hjd.
  unfold upd. destruct (Z.eqb_spec (Company.id d) id); [lia | reflexivity].
Qed.

End UpdateCompany.

Lemma put_company_writes_what_was_sent_witness :
  exists c',
    find_company
      (fst (put_company SampleVault.encrypt SampleVault.one_company 1
                        SampleVault.only_name)) 1 = Some c'
    /\ Company.name c' = "B"
    /\ Company.pb_api_token_encrypted c' = None
    /\ Company.checkbox_license_key_encrypted c' = Some "enc:license".
Proof.
  destruct (put_company_writes_what_was_sent SampleVault.encrypt
              SampleVault.one_company _ 1 SampleVault.only_name _ eq_refl)
    as (c & c' & Hc & Hc' & _ & _ & Hname & _ & _ & Htoken & _).
  exists c'. split; [exact Hc'|]. split; [exact Hname|].
  split; [exact Htoken|].
  vm_compute in Hc'. injection Hc' as <-. reflexivity.
Defined.

(** ** Databases managed through the routes *)

Lemma NoDup_map_filter {A B : Type} (f : A -> B) (g : A -> bool)
                       (l : list A) :
  NoDup (map f l) -> NoDup (map f (filter g l)).
Proof.
  induction l as [|a l IH]; simpl; intros Hnd; [constructor|].
  inversion Hnd as [|? ? Hnotin Hnd']; subst.
  destruct (g a); simpl; [|auto].
  constructor; [|auto]. intros Hin. apply Hnotin.
  apply in_map_iff in Hin. destruct Hin as (x & Hx & Hxin).
  apply filter_In in Hxin. rewrite <- Hx. apply in_map. tauto.
Qed.

Lemma update_keeps_tax_unique (upd : Company.t -> Company.t) (id : Z)
                              (cs : list Company.t) :
  (forall c, Company.id (upd c) = Company.id c) ->
  (forall c, Company.id c <> id -> upd c = c) ->
  NoDup (map Company.id cs) ->
  NoDup (map Company.tax_id cs) ->
  (forall c d, In c (map upd cs) -> In d (map upd cs) ->
               Company.id c = id -> Company.id d <> id ->
               Company.tax_id d <> Company.tax_id c) ->
  NoDup (map Company.tax_id (map upd cs)).
Proof.
  intros Hid Hother.
  induction cs as [|a cs IH]; simpl; intros Hids Htax Hclash; [constructor|].
  inversion Hids as [|? ? Hida Hids']; subst.
  inversion Htax as [|? ? Htaxa Htax']; subst.
  constructor.
  - intros Hin. apply in_map_iff in Hin. destruct Hin as (d' & Hd' & Hin).
    pose proof Hin as Hin'.
    apply in_map_iff in Hin. destruct Hin as (d & <- & Hd).
    destruct (Z.eq_dec (Company.id a) id) as [Ha | Ha].
    + assert (Hdid : Company.id (upd d) <> id).
      { rewrite Hid. intros Hd2. apply Hida. rewrite Ha, <- Hd2.
        apply in_map. exact Hd. }
      apply (Hclash (upd a) (upd d)); auto. rewrite Hid. exact Ha.
    + destruct (Z.eq_dec (Company.id d) id) as [Hdd | Hdd].
      * apply (Hclash (upd d) (upd a)); auto.
        -- rewrite Hid. exact Hdd.
        -- rewrite Hid. exact Ha.
      * rewrite (Hother a Ha), (Hother d Hdd) in Hd'.
        apply Htaxa. rewrite <- Hd'. apply in_map. exact Hd.
  - apply IH; auto.
Qed.

Section Managed.

Variable encrypt : string -> Thrown string.
Variable decrypt : string -> Thrown string.
Variable RawTx : Type.
Variable NUM_DOC : RawTx -> string.
Variable parsePrivatBankTransaction : RawTx -> Thrown ParsedPayment.

Lemma tidy_post (db : Database) (nextval : Z) (body : CreateCompanyBody) :
  tidy db -> tidy (fst (post_company encrypt db nextval body)).
Proof.
  intros Htidy. unfold post_company.
  destruct (str_falsy (b_name body) || str_falsy (b_tax_id body));
    [exact Htidy|].
  destruct (encrypt_field encrypt (b_pb_api_token body)); [exact Htidy|].
  destruct (encrypt_field encrypt (b_checkbox_license_key body));
    [exact Htidy|].
  destruct (encrypt_field encrypt (b_checkbox_cashier_pin body));
    [exact Htidy|].
  unfold insert_company. cbn [Company.tax_id].
  destruct (existsb (fun c => Company.id c =? nextval) (companies db))
    eqn:Hid; [exact Htidy|].
  destruct (existsb (fun c => String.eqb (Company.tax_id c) (b_tax_id body))
                    (companies db)) eqn:Htaken; [exact Htidy|].
  destruct Htidy as (Hlogin & Hr & Hflags & Hids & Htax).
  unfold tidy. cbn [fst companies payments receipts with_companies].
  split; [|split; [exact Hr|split; [exact Hflags|split]]].
  - intros c Hc. apply in_app_iff in Hc. destruct Hc as [Hc | [<- | []]];
      [apply Hlogin; exact Hc | reflexivity].
  - rewrite map_app. apply NoDup_app; auto.
    + constructor; [intros [] | constructor].
    + intros i Hi [<- | []]. apply in_map_iff in Hi.
      destruct Hi as (c & Hci & Hc).
      assert (Hex : existsb (fun c => Company.id c =? nextval)
                            (companies db) = true)
        by (apply existsb_exists; exists c; split;
            [exact Hc | apply Z.eqb_eq; exact Hci]).
      congruence.
  - rewrite map_app. apply NoDup_app; auto.
    + constructor; [intros [] | constructor].
    + intros t Ht [<- | []]. apply in_map_iff in Ht.
      destruct Ht as (c & Hct & Hc).
      assert (Hex : existsb (fun c => String.eqb (Company.tax_id c)
                                                 (b_tax_id body))
                            (companies db) = true)
        by (apply existsb_exists; exists c; split;
            [exact Hc | apply String.eqb_eq; exact Hct]).
      congruence.
Qed.

Lemma tidy_put (db : Database) (id : Z) (body : UpdateCompanyBody) :
  tidy db -> tidy (fst (put_company encrypt db id body)).
Proof.
  intros Htidy. unfold put_company.
  destruct (present_but_empty (u_name body)
            || present_but_empty (u_tax_id body)); [exact Htidy|].
  destruct (collect_updates encrypt body) as [?|updates]; [exact Htidy|].
  destruct updates as [|a updates]; [exact Htidy|].
  set (all := a :: updates).
  unfold update_company.
  set (upd := fun c => if Company.id c =? id then assign_all all c else c).
  destruct (existsb _ (map upd (companies db))) eqn:Hclash; [exact Htidy|].
  destruct (filter (fun c => Company.id c =? id) (map upd (companies db)));
    [exact Htidy|].
  assert (Hupd : forall c, Company.id (upd c) = Company.id c).
  { intros c. unfold upd. destruct (Company.id c =? id); [|reflexivity].
    apply assign_all_fixed. }
  assert (Hlog : forall c, Company.checkbox_cashier_login (upd c)
                           = Company.checkbox_cashier_login c).
  { intros c. unfold upd. destruct (Company.id c =? id); [|reflexivity].
    apply assign_all_fixed. }
  destruct Htidy as (Hlogin & Hr & Hflags & Hids & Htax).
  unfold tidy. cbn [fst companies payments receipts with_companies].
  split; [|split; [exact Hr|split; [exact Hflags|split]]].
  - intros c Hc. apply in_map_iff in Hc. destruct Hc as (c0 & <- & Hc0).
    rewrite Hlog. apply Hlogin. exact Hc0.
  - rewrite map_map. rewrite (map_ext _ Company.id Hupd). exact Hids.
  - apply (update_keeps_tax_unique upd id); auto.
    + intros c Hc. unfold upd.
      destruct (Z.eqb_spec (Company.id c) id); [contradiction | reflexivity].
    + intros c d Hc Hd Hcid Hdid Heq.
      assert (Hex : existsb
                (fun c => (Company.id c =? id)
                          && existsb (fun d => negb (Company.id d =? id)
                                               && String.eqb (Company.tax_id d)
                                                             (Company.tax_id c))
                                     (map upd (companies db)))
                (map upd (companies db)) = true).
      { apply existsb_exists. exists c. split; [exact Hc|].
        apply andb_true_iff. split; [apply Z.eqb_eq; exact Hcid|].
        apply existsb_exists. exists d. split; [exact Hd|].
        apply andb_true_iff. split.
        - apply negb_true_iff. apply Z.eqb_neq. exact Hdid.
        - apply String.eqb_eq. exact Heq. }
      congruence.
Qed.

Lemma tidy_delete (db : Database) (id : Z) :
  tidy db -> tidy (fst (delete_company_route db id)).
Proof.
  intros Htidy. unfold delete_company_route.
  destruct (0 <? _)%nat; [exact Htidy|].
  unfold delete_company.
  destruct (filter (fun c => Company.id c =? id) (companies db));
    [exact Htidy|].
  destruct Htidy as (Hlogin & Hr & Hflags & Hids & Htax).
  unfold tidy. cbn [fst companies payments receipts].
  split; [|split; [|split; [|split]]].
  - intros c Hc. apply filter_In in Hc. apply Hlogin. tauto.
  - rewrite Hr. reflexivity.
  - intros p Hp. apply filter_In in Hp. apply Hflags. tauto.
  - apply NoDup_map_filter. exact Hids.
  - apply NoDup_map_filter. exact Htax.
Qed.

Lemma tidy_fetch bank (db : Database) (c : Z)
                 (startDate endDate : option string) :
  tidy db ->
  tidy (fst (fetch_route decrypt NUM_DOC parsePrivatBankTransaction
                         bank db c startDate endDate)).
Proof.
  intros (Hlogin & Hr & Hflags & Hids & Htax).
  destruct (fetch_route_effect decrypt _ NUM_DOC parsePrivatBankTransaction
              bank db c startDate endDate)
    as ((added & Hadd & Hown) & Hr' & Hc' & _).
  cbv zeta in *. unfold tidy. rewrite Hr', Hc', Hadd.
  split; [exact Hlogin|]. split; [exact Hr|]. split; [|auto].
  intros p Hp. apply in_app_iff in Hp. destruct Hp as [Hp | Hp];
    [apply Hflags; exact Hp|].
  rewrite Forall_forall in Hown. destruct (Hown p Hp) as (_ & Hflag & _).
  exact Hflag.
Qed.

(** Without a cashier login and without a flagged payment a receipt call
    stops before the fiscal service. *)
Lemma tidy_call_stops checkbox (db : Database) (paymentId : Z) :
  tidy db ->
  create_route decrypt checkbox db paymentId = stopped ValidationError
  \/ create_route decrypt checkbox db paymentId = stopped PaymentNotFound
  \/ create_route decrypt checkbox db paymentId = stopped CredentialsMissing.
Proof.
  intros (Hlogin & _ & Hflags & _). unfold create_route.
  destruct (negb (0 <? paymentId)); [auto|].
  unfold select_payment.
  destruct (find_payment db paymentId) as [p|] eqn:Hp; [|auto].
  destruct (find_company db (Payment.company_id p)) as [c|] eqn:Hc; [|auto].
  rewrite (Hflags p (find_payment_In _ _ _ Hp)).
  unfold find_company in Hc. apply find_some in Hc.
  rewrite (Hlogin c (proj1 Hc)).
  destruct (Company.checkbox_license_key_encrypted c); auto.
Qed.

Lemma tidy_create checkbox (db : Database) (paymentId : Z) :
  tidy db ->
  tidy (final_db db (create_route decrypt checkbox db paymentId)).
Proof.
  intros Htidy.
  destruct (tidy_call_stops checkbox db paymentId Htidy) as [-> | [-> | ->]];
    exact Htidy.
Qed.

Lemma tidy_migrate (db : Database) :
  tidy db -> tidy (updateIsTargetPatterns db).
Proof.
  intros (Hlogin & Hr & Hflags & Hids & Htax).
  unfold tidy, updateIsTargetPatterns. simpl.
  repeat split; auto.
  intros p Hp. apply in_map_iff in Hp. destruct Hp as (q & <- & Hq).
  simpl. apply Hflags. exact Hq.
Qed.

Lemma managed_tidy (db : Database) :
  managed encrypt decrypt NUM_DOC parsePrivatBankTransaction db -> tidy db.
Proof.
  induction 1.
  - unfold tidy. simpl. repeat split; try constructor; intros ? [].
  - apply tidy_post. assumption.
  - apply tidy_put. assumption.
  - apply tidy_delete. assumption.
  - apply tidy_fetch. assumption.
  - apply tidy_create. assumption.
  - apply tidy_migrate. assumption.
Qed.

(** X19: neither POST nor PUT writes [checkbox_cashier_login].  In a
    database that the routes and the migration have produced from an
    empty one, no company has a cashier login, so no receipt call gets
    as far as the fiscal service: nothing is sent, nothing is committed,
    and the answer is neither a created receipt nor a fiscal failure nor
    that the receipt is issued already; no receipt exists and no payment
    is flagged. *)
Theorem managed_company_cannot_issue (db : Database) :
  managed encrypt decrypt NUM_DOC parsePrivatBankTransaction db ->
  (forall c, In c (companies db) -> Company.checkbox_cashier_login c = None)
  /\ receipts db = []
  /\ (forall p, In p (payments db) -> Payment.receipt_issued p = false)
  /\ forall checkbox paymentId,
       sent (create_route decrypt checkbox db paymentId) = None
       /\ committed (create_route decrypt checkbox db paymentId) = []
       /\ match response (create_route decrypt checkbox db paymentId) with
          | ReceiptCreated _ _ | FiscalSubmissionFailed _ | AlreadyIssued =>
              False
          | _ => True
          end.
Proof.
  intros Hm. pose proof (managed_tidy db Hm) as Htidy.
  destruct Htidy as (Hlogin & Hr & Hflags & Hkeys).
  split; [exact Hlogin|]. split; [exact Hr|]. split; [exact Hflags|].
  intros checkbox paymentId.
  destruct (tidy_call_stops checkbox db paymentId)
    as [-> | [-> | ->]]; simpl; auto.
  unfold tidy. auto.
Qed.

(** X20: in such a database no two companies share an id and no two share
    a tax id: POST and PUT answer with a failure, and write nothing,
    rather than store a second company under a tax id in use. *)
Theorem company_keys_stay_unique (db : Database) :
  managed encrypt decrypt NUM_DOC parsePrivatBankTransaction db ->
  NoDup (map Company.id (companies db))
  /\ NoDup (map Company.tax_id (companies db)).
Proof.
  intros Hm. destruct (managed_tidy db Hm) as (_ & _ & _ & Hids & Htax).
  auto.
Qed.

End Managed.

Lemma sample_with_payment_managed :
  managed SampleVault.encrypt SampleVault.decrypt Sample.NUM_DOC Sample.parse
          SampleVault.with_payment.
Proof.
  apply (managed_fetch SampleVault.encrypt SampleVault.decrypt _
           Sample.NUM_DOC Sample.parse (Sample.bank [Sample.tx "TX-1"])
           SampleVault.one_company 1 None None).
  apply (managed_post SampleVault.encrypt SampleVault.decrypt _
           Sample.NUM_DOC Sample.parse (fresh []) 1 SampleVault.body).
  apply managed_fresh.
Qed.

Lemma managed_company_cannot_issue_witness :
  List.length (payments SampleVault.with_payment) = 1%nat
  /\ response (create_route SampleVault.decrypt Sample.accepting
                            SampleVault.with_payment 1) = CredentialsMissing
  /\ receipts SampleVault.with_payment = [].
Proof.
  destruct (managed_company_cannot_issue SampleVault.encrypt
              SampleVault.decrypt _ Sample.NUM_DOC Sample.parse
              SampleVault.with_payment sample_with_payment_managed)
    as (_ & Hr & _ & _).
  split; [reflexivity|]. split; [reflexivity | exact Hr].
Defined.

Lemma company_keys_stay_unique_witness :
  NoDup (map Company.tax_id (companies SampleVault.with_payment)).
Proof.
  exact (proj2 (company_keys_stay_unique SampleVault.encrypt
                  SampleVault.decrypt _ Sample.NUM_DOC Sample.parse
                  SampleVault.with_payment sample_with_payment_managed)).
Defined.

(** ** The company selected after loading *)

(** X21: loading a list of companies never replaces a selection; with
    nothing selected and a list that is not empty it selects a company of
    the list: the first one whose id is the saved id when the saved id
    parses and is listed, and the first of the list otherwise, that is
    when the saved id parses and is not listed, does not parse, is empty
    or is absent. *)
Theorem selection_is_listed
    (parseInt : string -> option Z) (selectedCompany : option CompanyView)
    (companies : list CompanyView) (savedCompanyId : option string) :
  let selected :=
    select_after_load parseInt selectedCompany companies savedCompanyId in
  match selectedCompany, companies with
  | Some _, _ => selected = selectedCompany
  | None, [] => selected = None
  | None, first :: _ =>
      exists c,
        selected = Some c /\ In c companies
        /\ (forall saved i,
               savedCompanyId = Some saved -> saved <> "" ->
               parseInt saved = Some i ->
               (exists d, In d companies /\ v_id d = i) ->
               find (fun d => v_id d =? i) companies = Some c)
        /\ (forall saved i,
               savedCompanyId = Some saved ->
               parseInt saved = Some i ->
               (forall d, In d companies -> v_id d <> i) ->
               c = first)
        /\ ((savedCompanyId = None \/ savedCompanyId = Some ""
             \/ (forall saved, savedCompanyId = Some saved ->
                               parseInt saved = None)) ->
            c = first)
  end.
Proof.
  unfold select_after_load, companyToSelect.
  destruct selectedCompany as [s|]; [destruct companies; reflexivity|].
  destruct companies as [|first rest]; [reflexivity|].
  set (companies := first :: rest).
  destruct savedCompanyId as [saved|].
  - destruct (str_falsy saved) eqn:Hsaved.
    + exists first. cbn [hd_error companies].
      split; [reflexivity|]. split; [left; reflexivity|].
      split; [|split; [reflexivity | auto]].
      intros saved' i [= <-] Hne. destruct saved; [congruence | discriminate].
    + destruct (parseInt saved) as [i|] eqn:Hparse.
      * destruct (find (fun c => v_id c =? i) companies) as [c|] eqn:Hfind.
        -- exists c. split; [reflexivity|].
           split; [exact (proj1 (find_some _ _ Hfind))|].
           split; [|split].
           ++ intros saved' i' [= <-] _ Hi' _.
              assert (i' = i) by congruence. subst i'. exact Hfind.
           ++ intros saved' i' [= <-] Hi' Hnone. exfalso.
              assert (i' = i) by congruence. subst i'.
              apply find_some in Hfind. destruct Hfind as [Hc Hid].
              apply (Hnone c Hc). lia.
           ++ intros [Hnone | [Hempty | Hnan]]; [discriminate| |].
              ** injection Hempty as ->. discriminate.
              ** rewrite (Hnan saved eq_refl) in Hparse. discriminate.
        -- exists first. cbn [hd_error companies].
           split; [reflexivity|]. split; [left; reflexivity|].
           split; [|split; [reflexivity | auto]].
           intros saved' i' [= <-] _ Hi' (d & Hd & Hdi).
           exfalso. assert (i' = i) by congruence. subst i'.
           pose proof (find_none _ _ Hfind d Hd) as Hno. simpl in Hno. lia.
      * assert (Hnone : find (fun _ : CompanyView => false) companies = None)
          by (clear; induction companies; [reflexivity | assumption]).
        rewrite Hnone. exists first. cbn [hd_error companies].
        split; [reflexivity|]. split; [left; reflexivity|].
        split; [|split; [reflexivity | auto]].
        intros saved' i' [= <-] _ Hi'. congruence.
  - exists first. cbn [hd_error companies].
    split; [reflexivity|]. split; [left; reflexivity|].
    split; [|split; [reflexivity | auto]].
    intros saved i Habs. discriminate.
Qed.

(** ** The earlier lemmas on the small installation *)



Lemma select_payment_finds_stored_witness :
  exists c,
    select_payment Sample.one_payment 1
    = Some (number_payment 1 (new_payment_row 1 (Sample.tx "TX-1")), c).
Proof.
  apply (select_payment_finds_stored Sample.decrypt _ Sample.NUM_DOC
           Sample.parse Sample.one_payment
           (number_payment 1 (new_payment_row 1 (Sample.tx "TX-1")))).
  - apply sample_one_payment_reachable.
  - left. reflexivity.
Defined.
